(** * A guitar tuner's pitch pipeline (src/tuner.py), embedded in Rocq

    The development follows the Python module function by function:
    the reference table [STRINGS], [freq_to_string], [cents_diff],
    [detect_frequency_autocorr] and the methods of [LiveTuner].

    Numbers.  Samples and frequencies are Python floats; they are modelled
    as exact rationals ([Q]), so that every definition below evaluates.
    The one transcendental operation, [np.log2] in [cents_diff], is taken
    in the real numbers after injecting its rational arguments.  Rounding
    of binary64 arithmetic is outside the model.

    Exceptions.  A Python exception that leaves a function is a [Raise]
    result; state written before the exception stays written.

    scipy.  [butter], [sosfilt] and [sosfilt_zi] belong to scipy, not to
    the repository.  The tuner is parametrised by an interface [Sos]
    holding what [LiveTuner] uses of them; [Df2t] gives the instance that
    follows scipy's documented recurrence, used for concrete runs. *)

From Stdlib Require Import String List ZArith QArith Qabs Bool Arith Lia.
From Stdlib Require Import Reals Lra Qreals.
From Stdlib Require Lqa.
Import ListNotations.

Local Open Scope string_scope.
Local Open Scope list_scope.
Local Open Scope Q_scope.

(** ** Results and small numeric helpers *)

Inductive exn : Type := IndexError | ValueError.

Inductive result (A : Type) : Type :=
| Ok (a : A)
| Raise (e : exn).
Arguments Ok {A} a.
Arguments Raise {A} e.

(** [a < b] on floats, as a boolean. *)
Definition Qltb (a b : Q) : bool := negb (Qle_bool b a).

(** [sum(l)] *)
Fixpoint Qsum (l : list Q) : Q :=
  match l with
  | [] => 0
  | v :: l' => v + Qsum l'
  end.

(** [np.mean(l)]: the sum over the length.  ([Qinv 0] is [0]; every call
    site below passes a non-empty list.) *)
Definition mean (l : list Q) : Q := Qsum l / inject_Z (Z.of_nat (length l)).

(** ** Guitar strings reference *)

Definition STRINGS : list (string * Q) :=
  [ ("Low E", 82.41); ("A", 110.00); ("D", 146.83);
    ("G", 196.00); ("B", 246.94); ("High E", 329.63) ].

(** [np.log2] *)
Definition log2 (x : R) : R := (ln x / ln 2)%R.

(** [cents_diff(f_meas, f_target)] *)
Definition cents_diff (f_meas f_target : Q) : R :=
  ((1200 * log2 (Q2R f_meas / Q2R f_target)) / 10)%R.

(** [min(diffs, key=diffs.get)] walks the dict in insertion order and keeps
    the first key whose value is smallest: a later key replaces the best one
    only when its value is strictly smaller. *)
Fixpoint min_from (best : string * Q) (l : list (string * Q)) : string :=
  match l with
  | [] => fst best
  | kv :: l' =>
      if Qltb (snd kv) (snd best) then min_from kv l' else min_from best l'
  end.

Definition min_key (d : list (string * Q)) : string :=
  match d with
  | [] => ""   (* min() of an empty dict raises; [STRINGS] has six entries *)
  | kv :: l => min_from kv l
  end.

(** [STRINGS[name]] *)
Fixpoint get (d : list (string * Q)) (name : string) : Q :=
  match d with
  | [] => 0    (* KeyError; [name] is always a key of [STRINGS] *)
  | (k, v) :: d' => if String.eqb k name then v else get d' name
  end.

(** [diffs = {note: abs(freq - f) for note, f in STRINGS.items()}] *)
Definition diffs (freq : Q) : list (string * Q) :=
  map (fun kv => (fst kv, Qabs (freq - snd kv))) STRINGS.

Definition freq_to_string (freq : Q) : string * Q :=
  let name := min_key (diffs freq) in
  (name, get STRINGS name).

(** ** Frequency detection using autocorrelation *)

(** Sum of products over the common prefix of two lists. *)
Fixpoint dot (a b : list Q) : Q :=
  match a, b with
  | x :: a', y :: b' => x * y + dot a' b'
  | _, _ => 0
  end.

(** [np.correlate(a, v, mode='full')]: entry [j] is the sum over [n] of
    [a[n + k] * v[n]] at lag [k = j - (len(v) - 1)], for [k] from
    [-(len(v) - 1)] to [len(a) - 1]. *)
Definition correlate_full (a v : list Q) : list Q :=
  map (fun p => dot a (skipn p v)) (rev (seq 1 (length v - 1)))
  ++ map (fun k => dot (skipn k a) v) (seq 0 (length a)).

(** [np.diff(l)] *)
Fixpoint diff (l : list Q) : list Q :=
  match l with
  | a :: (b :: _) as t => (b - a) :: diff t
  | _ => []
  end.

(** [np.where(d > 0)[0]]: the indices of the positive entries, ascending. *)
Fixpoint where_pos_from (i : nat) (d : list Q) : list nat :=
  match d with
  | [] => []
  | v :: d' =>
      if Qltb 0 v then i :: where_pos_from (S i) d'
      else where_pos_from (S i) d'
  end.

Definition where_pos (d : list Q) : list nat := where_pos_from 0 d.

(** [np.argmax(l)]: the first index holding the maximum; [None] stands for
    the ValueError of an empty array. *)
Fixpoint argmax_from (best_i : nat) (best : Q) (i : nat) (l : list Q) : nat :=
  match l with
  | [] => best_i
  | v :: l' =>
      if Qltb best v then argmax_from i v (S i) l'
      else argmax_from best_i best (S i) l'
  end.

Definition argmax (l : list Q) : option nat :=
  match l with
  | [] => None
  | v :: l' => Some (argmax_from 0%nat v 1%nat l')
  end.

(** [x - np.mean(x)] *)
Definition centred (x : list Q) : list Q := map (fun v => v - mean x) x.

(** The non-negative-lag half: [corr[len(corr)//2:]] of the full
    autocorrelation of the mean-removed block. *)
Definition autocorr (x : list Q) : list Q :=
  let x := centred x in
  let corr := correlate_full x x in
  skipn (length corr / 2) corr.

(** Lines 85-90, on the array [corr] that line 84 left.  The entries of
    [corr] are the values numpy computed, each of them a rational number:
    comparing two of them, and the sign of their difference, are the same
    in binary64 as here, whatever rounding produced the entries. *)
Definition detect_on (corr : list Q) (fs : Q) : result Q :=
  let d := diff corr in
  match where_pos d with
  | [] => Raise IndexError          (* np.where(d > 0)[0][0] *)
  | start :: _ =>
      match argmax (skipn start corr) with
      | None => Raise ValueError
      | Some a =>
          let peak := (a + start)%nat in
          if (peak =? 0)%nat then Ok 0
          else Ok (fs / inject_Z (Z.of_nat peak))
      end
  end.

(** The estimator with lines 82-84 taken in exact arithmetic ([autocorr]);
    np.mean and np.correlate round each sum. *)
Definition detect_frequency_autocorr (x : list Q) (fs : Q) : result Q :=
  match x with
  | [] => Raise ValueError          (* np.correlate refuses an empty array *)
  | _ => detect_on (autocorr x) fs
  end.


(** ** Bandpass filter (anti noise): what [LiveTuner] uses of scipy *)

(** The filter's continuity state, an array of shape (n_sections, 2). *)
Definition zi_t : Type := list (Q * Q).

(** [zi * a] *)
Definition scale (zi : zi_t) (a : Q) : zi_t :=
  map (fun z => (fst z * a, snd z * a)) zi.

(** For the fixed [sos = make_bandpass_sos(40, 400, fs)]:
    [sosfilt_zi(sos)], [sosfilt(sos, x)] and [sosfilt(sos, x, zi=zi)];
    the last one may raise ([None]). *)
Record Sos : Type := {
  sosfilt_zi : zi_t;
  sosfilt : list Q -> list Q;
  sosfilt_state : list Q -> zi_t -> option (list Q * zi_t);
  (* the output of [sosfilt] has the shape of its input *)
  sosfilt_length : forall x, length (sosfilt x) = length x
}.

(** ** Live tuner class *)

(** [self.note_confirm_threshold = 3], written once in [__init__]. *)
Definition note_confirm_threshold : nat := 3.

Record LiveTuner : Type := {
  fs : Q;
  running : bool;
  q : list (list Q);
  last_note : option string;
  note_counter : nat;
  zi : zi_t;
  freq_history : list Q
}.

(** What a confirmed block puts on the display: the status line and the
    gauge show [string], [freq_smooth] and [diff]. *)
Record Reading : Type := {
  note : string;
  frequency_hz : Q;
  deviation : R
}.

(** How one call of [poll] ends: it returns, having displayed a reading or
    not and having rescheduled itself or not, or an exception leaves it
    (nothing is displayed and nothing rescheduled). *)
Inductive outcome : Type :=
| Returned (shown : option Reading) (rescheduled : bool)
| Aborted (e : exn).

Definition set_running (s : LiveTuner) (b : bool) : LiveTuner :=
  {| fs := fs s; running := b; q := q s; last_note := last_note s;
     note_counter := note_counter s;
     zi := zi s; freq_history := freq_history s |}.

Definition set_q (s : LiveTuner) (l : list (list Q)) : LiveTuner :=
  {| fs := fs s; running := running s; q := l; last_note := last_note s;
     note_counter := note_counter s;
     zi := zi s; freq_history := freq_history s |}.

Definition set_note (s : LiveTuner) (n : option string) (c : nat) : LiveTuner :=
  {| fs := fs s; running := running s; q := q s; last_note := n;
     note_counter := c;
     zi := zi s; freq_history := freq_history s |}.

Definition set_zi (s : LiveTuner) (z : zi_t) : LiveTuner :=
  {| fs := fs s; running := running s; q := q s; last_note := last_note s;
     note_counter := note_counter s;
     zi := z; freq_history := freq_history s |}.

Definition set_freq_history (s : LiveTuner) (h : list Q) : LiveTuner :=
  {| fs := fs s; running := running s; q := q s; last_note := last_note s;
     note_counter := note_counter s;
     zi := zi s; freq_history := h |}.

(** [np.max(np.abs(arr))]; [None] stands for the ValueError of an empty
    array. *)
Definition max_abs (arr : list Q) : option Q :=
  match arr with
  | [] => None
  | v :: l =>
      Some (fold_left (fun m w => if Qltb m (Qabs w) then Qabs w else m)
                      l (Qabs v))
  end.

(** Lines 170-171: [arr = arr / peak] then [arr *= 2.0]. *)
Definition normalise (arr : list Q) (peak : Q) : list Q :=
  map (fun v => v / peak * 2) arr.

(** [l[-1]] *)
Definition last_item {A : Type} (l : list A) : option A :=
  match rev l with
  | [] => None
  | a :: _ => Some a
  end.

(** Lines 197-205 of [poll]: the moving average over the last detections. *)
Definition smooth (history : list Q) (freq : Q) : list Q * Q :=
  if Qltb 0 freq then
    let h := history ++ [freq] in
    let h := filter (fun f => Qltb 0 f) h in
    let h := if (5 <? length h)%nat then tl h else h in
    (h, mean h)
  else (history, 0).

(** Lines 210-216 of [poll]: the stability check on the resolved note. *)
Definition confirm (s : LiveTuner) (name : string) : LiveTuner * bool :=
  let s :=
    match last_note s with
    | Some n =>
        if String.eqb name n then set_note s (last_note s) (note_counter s + 1)
        else set_note s (Some name) 1
    | None => set_note s (Some name) 1
    end in
  (s, (note_confirm_threshold <=? note_counter s)%nat).

(** Line 218: [cents_diff(freq_smooth, target) if freq_smooth > 0 else 0]. *)
Definition gauge_diff (freq_smooth target : Q) : R :=
  if Qltb 0 freq_smooth then cents_diff freq_smooth target else 0%R.

(** The methods below are those of [LiveTuner]; the ones that call scipy
    are gathered in the section [Tuner], which takes the filter. *)

(** [audio_callback]: the audio thread queues the block unless the
    device reports a status flag. *)
Definition audio_callback (s : LiveTuner) (indata : list Q) (status : bool)
  : LiveTuner :=
  if status then s else set_q s (q s ++ [indata]).

(** [start]; [device_ok] tells whether the input stream opens. *)
Definition start (s : LiveTuner) (device_ok : bool) : LiveTuner :=
  if running s then s
  else if device_ok then set_running s true
  else s.

(** Line 174: the state handed to the filter, [zi=self.zi * arr[0]]. *)
Definition filter_arg (s : LiveTuner) (arr : list Q) : zi_t :=
  scale (zi s) (hd 0 arr).

(** Lines 197-221: from the detected frequency to the display. *)
Definition gauge_of (s : LiveTuner) (freq : Q) : LiveTuner * outcome :=
  let (h, freq_smooth) := smooth (freq_history s) freq in
  let s := set_freq_history s h in
  let (name, target) := freq_to_string freq_smooth in
  let (s, stable) := confirm s name in
  if stable then
    (s, Returned (Some {| note := name; frequency_hz := freq_smooth;
                          deviation := gauge_diff freq_smooth target |})
                 (running s))
  else (s, Returned None (running s)).

(** Lines 196-221: from the filtered block to the display. *)
Definition gauge (s : LiveTuner) (filtered : list Q) : LiveTuner * outcome :=
  match detect_frequency_autocorr filtered (fs s) with
  | Raise e => (s, Aborted e)
  | Ok freq => gauge_of s freq
  end.

Section Tuner.

Variable F : Sos.

(** [LiveTuner.__init__], with [fs] as given. *)
Definition init (fs : Q) : LiveTuner :=
  {| fs := fs; running := false; q := []; last_note := None;
     note_counter := 0;
     zi := sosfilt_zi F; freq_history := [] |}.

(** [stop] *)
Definition stop (s : LiveTuner) : LiveTuner :=
  if negb (running s) then s
  else
    let s := set_running s false in
    let s := set_q s [] in
    let s := set_zi s (sosfilt_zi F) in
    set_freq_history s [].

(** Lines 173-177: the filtering step with its [try]/[except].

    [np.squeeze] (line 163) turns a block of one frame into a 0-d array,
    and a 1-D array of one sample never comes out of it: a one-element
    list stands for that 0-d array.  On it [arr[0]] raises inside the
    [try], and in the [except] branch [sosfilt(self.sos, arr)] refuses a
    0-d input with a ValueError that leaves [poll]. *)
Definition filter_block (s : LiveTuner) (arr : list Q)
  : result (list Q * zi_t) :=
  match arr with
  | [_] => Raise ValueError
  | _ =>
      match sosfilt_state F arr (filter_arg s arr) with
      | Some (filtered, zf) => Ok (filtered, zf)
      | None =>
          let filtered := sosfilt F arr in
          match last_item filtered with
          | None => Raise IndexError
          | Some y => Ok (filtered, scale (sosfilt_zi F) y)
          end
      end
  end.

(** Lines 162-224: the work of [poll] on the block it kept, squeezed as
    said at [filter_block]; the peak and the normalisation are the same
    for a 0-d array.  (The spectrum plot of lines 180-193 only draws.) *)
Definition process (s : LiveTuner) (last : list Q) : LiveTuner * outcome :=
  match max_abs last with
  | None => (s, Aborted ValueError)
  | Some peak =>
      if Qltb peak 0.02 then (s, Returned None (running s))
      else
        let arr := normalise last peak in
        match filter_block s arr with
        | Raise e => (s, Aborted e)
        | Ok (filtered, zf) => gauge (set_zi s zf) filtered
        end
  end.

(** [poll]: drain the queue, keep the newest block, process it. *)
Definition poll (s : LiveTuner) : LiveTuner * outcome :=
  let last := last_item (q s) in
  let s := set_q s [] in
  match last with
  | None => (s, Returned None (running s))
  | Some last => process s last
  end.

(** One block arriving from the device, then one [poll]. *)
Definition feed (s : LiveTuner) (block : list Q) : LiveTuner * outcome :=
  poll (audio_callback s block false).

(** The readings displayed while a sequence of blocks is fed, one entry
    per block; polling stops at the first exception. *)
Fixpoint run (s : LiveTuner) (blocks : list (list Q))
  : LiveTuner * list outcome :=
  match blocks with
  | [] => (s, [])
  | b :: bs =>
      let (s1, o) := feed s b in
      match o with
      | Aborted _ => (s1, [o])
      | Returned _ _ => let (s2, os) := run s1 bs in (s2, o :: os)
      end
  end.

End Tuner.

(** ** A filter instance: scipy's documented recurrence

    [sosfilt] runs each sample through the sections in turn, every section
    in transposed direct form II with [a0 = 1]:
    [y = b0*x + z0; z0 = b1*x - a1*y + z1; z1 = b2*x - a2*y]. *)
Module Df2t.

Record section : Type := { b0 : Q; b1 : Q; b2 : Q; a1 : Q; a2 : Q }.

(** One sample through the cascade. *)
Fixpoint step (sos : list section) (z : zi_t) (x : Q) : Q * zi_t :=
  match sos, z with
  | c :: sos', (z0, z1) :: z' =>
      let y := b0 c * x + z0 in
      let '(out, zs) := step sos' z' y in
      (out, (b1 c * x - a1 c * y + z1, b2 c * x - a2 c * y) :: zs)
  | _, _ => (x, [])
  end.

Fixpoint filter_from (sos : list section) (z : zi_t) (xs : list Q)
  : list Q * zi_t :=
  match xs with
  | [] => ([], z)
  | x :: xs' =>
      let '(y, z1) := step sos z x in
      let '(ys, zf) := filter_from sos z1 xs' in
      (y :: ys, zf)
  end.

Lemma filter_from_length (sos : list section) (xs : list Q) :
  forall z, length (fst (filter_from sos z xs)) = length xs.
Proof.
  induction xs as [|x xs IH]; intros z; simpl; [reflexivity|].
  destruct (step sos z x) as [y z1].
  specialize (IH z1). destruct (filter_from sos z1 xs) as [ys zf].
  simpl in *. now rewrite IH.
Qed.

(** [sosfilt] without [zi] starts from rest; with [zi] it refuses a state
    whose shape is not (n_sections, 2). *)
Definition make (sos : list section) (steady : zi_t) : Sos :=
  {| sosfilt_zi := steady;
     sosfilt := fun x => fst (filter_from sos (map (fun _ => (0, 0)) sos) x);
     sosfilt_state := fun x z =>
       if (length z =? length sos)%nat then Some (filter_from sos z x)
       else None;
     sosfilt_length := fun x =>
       filter_from_length sos x (map (fun _ => (0, 0)) sos) |}.

(** A one-section band-pass: [y[n] = x[n] - x[n-2]], zero gain at 0 Hz
    and at the Nyquist frequency; its steady state for a unit step.  It is
    not the tuner's filter, which is the Butterworth band-pass of
    [make_bandpass_sos(40, 400, fs)]: it is one instance of [Sos] on which
    the definitions can be run, and what is stated for every [F : Sos] does
    not depend on it. *)
Definition differencer : Sos :=
  make [ {| b0 := 1; b1 := 0; b2 := -1; a1 := 0; a2 := 0 |} ] [ (-1, -1) ].

End Df2t.


(** ** Sample runs

    The runs below use the one-section filter [Df2t.differencer] in the
    place of the tuner's own, at the default sample rate of 44100 Hz, with
    blocks of a few samples. *)

(** A square-ish tone with a period of four samples. *)
Definition tone : list Q := [1; 0; -1; 0; 1; 0; -1; 0].

(** A block whose peak is 0.01. *)
Definition quiet : list Q := [0.01; -0.005; 0.01].

(** A tuner constructed and started. *)
Definition fresh : LiveTuner := start (init Df2t.differencer 44100) true.

(** That tuner after two blocks of the tone. *)
Definition used : LiveTuner :=
  fst (run Df2t.differencer fresh [tone; tone]).

(** ** Vocabulary of the statements *)

(** The verdicts of [confirm] over a sequence of resolved notes. *)
Fixpoint confirms (s : LiveTuner) (names : list string) : list bool :=
  match names with
  | [] => []
  | n :: names' => let (s', b) := confirm s n in b :: confirms s' names'
  end.

(** [r] is the first entry of [d] whose value is smallest. *)
Definition first_min (d : list (string * Q)) (r : string * Q) : Prop :=
  exists pre post,
    d = pre ++ r :: post
    /\ Forall (fun kv => snd r < snd kv) pre
    /\ Forall (fun kv => snd r <= snd kv) post.

(** [start] is the first lag at which the first difference of [corr] is
    positive. *)
Definition first_rise (corr : list Q) (start : nat) : Prop :=
  (S start < length corr)%nat
  /\ 0 < nth (S start) corr 0 - nth start corr 0
  /\ forall i, (i < start)%nat -> ~ 0 < nth (S i) corr 0 - nth i corr 0.

(** [peak] is the first index at or after [start] that holds the maximum of
    [corr] over the indices from [start] on. *)
Definition peak_after (corr : list Q) (start peak : nat) : Prop :=
  (start <= peak < length corr)%nat
  /\ (forall j, (start <= j < length corr)%nat ->
                nth j corr 0 <= nth peak corr 0)
  /\ (forall j, (start <= j < peak)%nat -> nth j corr 0 < nth peak corr 0).

(** ** More vocabulary, and the rest of the module *)

(** The state a tuner can be in: at most five detections in the history,
    all positive, and a stability count that is 0 before the first resolved
    note and at least 1 after it, the tracked note being one of the six
    strings. *)
Definition well_formed (s : LiveTuner) : Prop :=
  (length (freq_history s) <= 5)%nat
  /\ Forall (fun f => 0 < f) (freq_history s)
  /\ match last_note s with
     | None => note_counter s = 0%nat
     | Some n => (1 <= note_counter s)%nat /\ In n (map fst STRINGS)
     end.

(** The audio thread delivering blocks one after the other, none flagged. *)
Definition enqueue (s : LiveTuner) (blocks : list (list Q)) : LiveTuner :=
  fold_left (fun st block => audio_callback st block false) blocks s.

(** ** Bandpass filter: the band edges of [make_bandpass_sos] *)

(** [np.maximum(a, b)] and [np.minimum(a, b)] *)
Definition maximum (a b : Q) : Q := if Qltb a b then b else a.
Definition minimum (a b : Q) : Q := if Qltb b a then b else a.

(** [np.clip(a, a_min, a_max)] *)
Definition clip (a a_min a_max : Q) : Q := minimum (maximum a a_min) a_max.

(** Lines 38-40: the normalised cut-offs [low] and [high] handed to
    [butter]; [None] stands for the ZeroDivisionError of a zero sample
    rate. *)
Definition band_edges (low_hz high_hz fs : Q) : option (Q * Q) :=
  let nyq := 0.5 * fs in
  if Qeq_bool nyq 0 then None
  else Some (clip (low_hz / nyq) 0.0001 0.99,
             clip (high_hz / nyq) 0.0002 0.999).

(** ** Gauge drawing: the needle of [draw_gauge] *)

(** Lines 64-65: [lim = np.clip(diff_cents, -50, 50)] and
    [theta = 90 - (lim / 50) * 90], in degrees. *)
Definition needle_theta (diff_cents : R) : R :=
  let lim := Rmin (Rmax diff_cents (-50)) 50 in
  (90 - (lim / 50) * 90)%R.

(** [np.deg2rad] *)
Definition deg2rad (theta : R) : R := (theta * (PI / 180))%R.

(** Lines 66-69: the tip [(x, y)] of the needle drawn from the origin. *)
Definition needle_tip (diff_cents : R) : R * R :=
  let rad := deg2rad (needle_theta diff_cents) in
  (cos rad, sin rad).

(** ** The list of audio devices (lines 255-267) *)
Module Devices.

(** An entry of [sd.query_devices()], with the keys the module reads. *)
Record device : Type := {
  name : string;
  index : nat;
  max_input_channels : nat
}.

(** [c.lower()] on one character; device names are taken as byte strings,
    on which lowering acts on the letters A to Z. *)
Definition lower_ascii (c : Ascii.ascii) : Ascii.ascii :=
  let n := Ascii.nat_of_ascii c in
  if ((65 <=? n) && (n <=? 90))%nat then Ascii.ascii_of_nat (n + 32) else c.

(** [s.lower()] *)
Fixpoint lower (s : string) : string :=
  match s with
  | EmptyString => EmptyString
  | String c s' => String (lower_ascii c) (lower s')
  end.

(** [needle in s] *)
Fixpoint contains (needle s : string) : bool :=
  String.prefix needle s
  || match s with
     | EmptyString => false
     | String _ s' => contains needle s'
     end.

(** Line 260: the names that are passed over. *)
Definition skipped (n : string) : bool :=
  contains "primary" (lower n) || contains "sound mapper" (lower n).

(** [device_dict.get(n)]: the dict keeps its keys in insertion order. *)
Fixpoint lookup (device_dict : list (string * nat)) (n : string)
  : option nat :=
  match device_dict with
  | [] => None
  | (k, v) :: rest => if String.eqb k n then Some v else lookup rest n
  end.

(** Lines 258-264: the loop over the input devices, filling [device_dict]
    and [device_names_unique]. *)
Fixpoint scan (ds : list device) (device_dict : list (string * nat))
         (device_names_unique : list string)
  : list (string * nat) * list string :=
  match ds with
  | [] => (device_dict, device_names_unique)
  | d :: ds' =>
      if skipped (name d) then scan ds' device_dict device_names_unique
      else
        match lookup device_dict (name d) with
        | Some _ => scan ds' device_dict device_names_unique
        | None =>
            scan ds' (device_dict ++ [(name d, index d)])
                 (device_names_unique ++ [name d])
        end
  end.

(** Line 255: the devices that have input channels. *)
Definition input_devices (all : list device) : list device :=
  filter (fun d => (0 <? max_input_channels d)%nat) all.

Definition device_list (all : list device) : list (string * nat) * list string :=
  scan (input_devices all) [] [].

(** Line 267: the device selected at start-up. *)
Definition default_selection (device_names_unique : list string) : string :=
  match device_names_unique with
  | n :: _ => n
  | [] => "No input"
  end.

(** [LiveTuner.start] with the device looked up as line 130 does: a
    missing key raises KeyError inside the [try], as a stream that does
    not open does. *)
Definition start_selected (s : LiveTuner) (device_dict : list (string * nat))
           (selected : string) (stream_ok : bool) : LiveTuner :=
  start s (match lookup device_dict selected with
           | Some _ => stream_ok
           | None => false
           end).

(** [d] is the first device of [ds] that bears the name [n]. *)
Definition first_named (ds : list device) (n : string) (d : device) : Prop :=
  exists pre post,
    ds = pre ++ d :: post /\ name d = n
    /\ forall d', In d' pre -> name d' <> n.

End Devices.

(** * Properties *)

(** ** Comparisons *)

Lemma Qltb_lt (a b : Q) : Qltb a b = true <-> a < b.
Proof.
  unfold Qltb. rewrite negb_true_iff. split; intros H.
  - apply Qnot_le_lt. intros Hle. apply Qle_bool_iff in Hle. congruence.
  - destruct (Qle_bool b a) eqn:E; [|reflexivity].
    apply Qle_bool_iff in E. exfalso. exact (Qlt_not_le _ _ H E).
Qed.

Lemma Qltb_ge (a b : Q) : Qltb a b = false <-> b <= a.
Proof.
  unfold Qltb. rewrite negb_false_iff. apply Qle_bool_iff.
Qed.

(** ** The stability check *)

Lemma confirm_same (s : LiveTuner) (name : string) :
  last_note s = Some name ->
  confirm s name
  = (set_note s (Some name) (note_counter s + 1),
     (3 <=? note_counter s + 1)%nat).
Proof.
  intros H. unfold confirm. rewrite H, String.eqb_refl. reflexivity.
Qed.

Lemma confirm_other (s : LiveTuner) (name : string) :
  last_note s <> Some name ->
  confirm s name = (set_note s (Some name) 1, false).
Proof.
  intros H. unfold confirm. destruct (last_note s) as [n|] eqn:E.
  - destruct (String.eqb name n) eqn:En; [|reflexivity].
    apply String.eqb_eq in En. subst n. congruence.
  - reflexivity.
Qed.

(** C6.  The stability gate of [poll] (lines 209-216): a candidate equal to
    the tracked one increments the count, any other candidate replaces it
    and resets the count to 1; the verdict is true exactly when the new
    count has reached 3, hence on every further block with the same
    candidate once it was reached; and a fresh gate fed A, A, B, B, B
    answers false, false, false, false, true. *)
Theorem stability_gate_confirm :
  (forall s name, last_note s = Some name ->
     fst (confirm s name) = set_note s (Some name) (note_counter s + 1))
  /\ (forall s name, last_note s <> Some name ->
        fst (confirm s name) = set_note s (Some name) 1)
  /\ (forall s name,
        snd (confirm s name) = true
        <-> (3 <= note_counter (fst (confirm s name)))%nat)
  /\ (forall s name, last_note s = Some name -> (3 <= note_counter s)%nat ->
        snd (confirm s name) = true)
  /\ (forall F fs,
        confirms (init F fs) ["A"; "A"; "B"; "B"; "B"]
        = [false; false; false; false; true]).
Proof.
  split; [|split; [|split; [|split]]].
  - intros s name H. now rewrite confirm_same.
  - intros s name H. now rewrite confirm_other.
  - intros s name. unfold confirm. cbn [fst snd].
    unfold note_confirm_threshold. apply Nat.leb_le.
  - intros s name H Hc. rewrite confirm_same by exact H. cbn [snd].
    apply Nat.leb_le. lia.
  - intros F fs. reflexivity.
Qed.

(** ** The moving average *)

Lemma smooth_no_pitch (history : list Q) (freq : Q) :
  ~ 0 < freq -> smooth history freq = (history, 0).
Proof.
  intros H. unfold smooth.
  destruct (Qltb 0 freq) eqn:E; [|reflexivity].
  apply Qltb_lt in E. contradiction.
Qed.

(** C3, as the code has it.  When no pitch was detected ([freq] is not
    positive) the history is left unchanged and the smoothed frequency is 0,
    whatever the history holds (lines 204-205). *)
Theorem tracker_none_returns_zero (history : list Q) (freq : Q) :
  ~ 0 < freq ->
  fst (smooth history freq) = history /\ snd (smooth history freq) = 0.
Proof.
  intros H. rewrite smooth_no_pitch by exact H. split; reflexivity.
Qed.

Lemma tracker_none_returns_zero_witness :
  fst (smooth [100; 102] 0) = [100; 102] /\ snd (smooth [100; 102] 0) = 0.
Proof.
  apply (tracker_none_returns_zero [100; 102] 0).
  intros H. discriminate H.
Defined.

(** C3, as stated, fails: with 100 Hz in the history, an update without a
    pitch returns 0 and not the mean of the history, which is 100. *)
Lemma tracker_none_not_mean :
  smooth [100] 0 = ([100], 0)
  /\ mean [100] == 100
  /\ ~ snd (smooth [100] 0) == mean [100].
Proof.
  split; [reflexivity|]. split; [reflexivity|].
  intros H. discriminate H.
Qed.

(** X3.  With a detected pitch the history takes the new value, keeps its last
    five entries and the mean of those is returned: the six detections
    100, 102, 98, 101, 99, 103 leave 102, 98, 101, 99, 103, mean 100.6. *)
Lemma smooth_six_values :
  fst (smooth [100; 102; 98; 101; 99] 103) = [102; 98; 101; 99; 103]
  /\ snd (smooth [100; 102; 98; 101; 99] 103) == 100.6.
Proof. split; reflexivity. Qed.

(** ** The note resolver *)

Lemma min_from_first_min (l : list (string * Q)) :
  forall pre best mid,
    Forall (fun kv => snd best < snd kv) pre ->
    Forall (fun kv => snd best <= snd kv) mid ->
    exists r, min_from best l = fst r
              /\ first_min (pre ++ best :: mid ++ l) r.
Proof.
  induction l as [|kv l IH]; intros pre best mid Hpre Hmid.
  - exists best. split; [reflexivity|].
    exists pre, mid. rewrite app_nil_r. auto.
  - cbn [min_from]. destruct (Qltb (snd kv) (snd best)) eqn:E.
    + apply Qltb_lt in E.
      destruct (IH (pre ++ best :: mid) kv []) as (r & Hr & Hmin).
      * apply Forall_app. split.
        -- eapply Forall_impl; [|exact Hpre]. intros a Ha.
           eapply Qlt_trans; eassumption.
        -- constructor; [exact E|].
           eapply Forall_impl; [|exact Hmid]. intros a Ha.
           eapply Qlt_le_trans; eassumption.
      * constructor.
      * exists r. split; [exact Hr|].
        rewrite <- app_assoc in Hmin. exact Hmin.
    + apply Qltb_ge in E.
      destruct (IH pre best (mid ++ [kv])) as (r & Hr & Hmin).
      * exact Hpre.
      * apply Forall_app. split; [exact Hmid|]. constructor; [exact E|constructor].
      * exists r. split; [exact Hr|].
        rewrite <- app_assoc in Hmin. exact Hmin.
Qed.

Lemma min_key_first_min (kv : string * Q) (l : list (string * Q)) :
  exists r, min_key (kv :: l) = fst r /\ first_min (kv :: l) r.
Proof.
  destruct (min_from_first_min l [] kv []) as (r & Hr & Hmin);
    [constructor|constructor|].
  exists r. split; [exact Hr|exact Hmin].
Qed.

(** The entry [freq_to_string] returns sits at some place [i] of the table;
    no entry is nearer to [freq], and every entry before place [i] is
    strictly farther. *)
Lemma freq_to_string_nearest (freq : Q) :
  exists i,
    nth_error STRINGS i = Some (freq_to_string freq)
    /\ (forall j n t, nth_error STRINGS j = Some (n, t) ->
          Qabs (freq - snd (freq_to_string freq)) <= Qabs (freq - t))
    /\ (forall j n t, (j < i)%nat -> nth_error STRINGS j = Some (n, t) ->
          Qabs (freq - snd (freq_to_string freq)) < Qabs (freq - t)).
Proof.
  unfold freq_to_string.
  destruct (min_key_first_min
              ("Low E", Qabs (freq - 82.41))
              (tl (diffs freq))) as (r & Hr & pre & post & Hd & Hpre & Hpost).
  change (("Low E", Qabs (freq - 82.41)) :: tl (diffs freq))
    with (diffs freq) in Hr, Hd.
  rewrite Hr. clear Hr.
  exists (length pre).
  unfold diffs, STRINGS in Hd. cbn [map fst snd] in Hd.
  assert (Hall : Forall (fun kv => snd r <= snd kv) (pre ++ r :: post)).
  { apply Forall_app. split.
    - eapply Forall_impl; [|exact Hpre]. intros a Ha. apply Qlt_le_weak, Ha.
    - constructor; [apply Qle_refl|exact Hpost]. }
  rewrite <- Hd in Hall.
  repeat match goal with
         | H : Forall _ (_ :: _) |- _ => inversion H; subst; clear H
         end.
  cbn [snd] in *.
  do 6 (destruct pre as [|? pre];
        [ cbn [app] in Hd; injection Hd as <- _; cbn [fst snd get STRINGS String.eqb Ascii.eqb Bool.eqb length];
          split; [reflexivity|]; split;
          [ intros j n t Hj;
            do 6 (destruct j as [|j]; [cbn in Hj; injection Hj as <- <-; assumption|]);
            destruct j; discriminate Hj
          | intros j n t Hlt Hj;
            repeat match goal with
                   | H : Forall _ (_ :: _) |- _ => inversion H; subst; clear H
                   end;
            cbn [snd] in *;
            do 6 (destruct j as [|j]; [cbn in Hj; injection Hj as <- <-; first [assumption | cbn in Hlt; lia]|]);
            cbn in Hlt; lia ]
        | cbn [app] in Hd; injection Hd as <- Hd ]).
  destruct pre; discriminate Hd.
Qed.

Lemma ln_2_pos : (0 < ln 2)%R.
Proof. pose proof ln_lt_2. lra. Qed.

Lemma log2_1 : log2 1 = 0%R.
Proof. unfold log2. rewrite ln_1. pose proof ln_2_pos. field. lra. Qed.

Lemma log2_2 : log2 2 = 1%R.
Proof. unfold log2. pose proof ln_2_pos. field. lra. Qed.

Lemma log2_pos (x : R) : (1 < x)%R -> (0 < log2 x)%R.
Proof.
  intros H. unfold log2. apply Rdiv_lt_0_compat; [|apply ln_2_pos].
  rewrite <- ln_1. apply ln_increasing; lra.
Qed.

Lemma log2_neg (x : R) : (0 < x)%R -> (x < 1)%R -> (log2 x < 0)%R.
Proof.
  intros H0 H1. unfold log2.
  assert (Hln : (ln x < 0)%R) by (rewrite <- ln_1; apply ln_increasing; lra).
  pose proof ln_2_pos as H2.
  assert (H : (0 < - ln x / ln 2)%R) by (apply Rdiv_lt_0_compat; lra).
  unfold Rdiv in *. lra.
Qed.

Lemma Q2R_pos (a : Q) : 0 < a -> (0 < Q2R a)%R.
Proof. intros H. apply Qlt_Rlt in H. now rewrite RMicromega.Q2R_0 in H. Qed.

Lemma cents_diff_sharp (f t : Q) :
  0 < t -> t < f -> (0 < cents_diff f t)%R.
Proof.
  intros Ht Hf. unfold cents_diff.
  pose proof (Q2R_pos t Ht) as Ht'. pose proof (Qlt_Rlt _ _ Hf) as Hf'.
  assert (H1 : (1 < Q2R f / Q2R t)%R).
  { apply Rmult_lt_reg_r with (r := Q2R t); [exact Ht'|].
    unfold Rdiv. rewrite Rmult_assoc, Rinv_l by lra. lra. }
  pose proof (log2_pos _ H1). lra.
Qed.

Lemma cents_diff_flat (f t : Q) :
  0 < f -> f < t -> (cents_diff f t < 0)%R.
Proof.
  intros Hf Ht. unfold cents_diff.
  pose proof (Q2R_pos f Hf) as Hf'. pose proof (Qlt_Rlt _ _ Ht) as Ht'.
  assert (H0 : (0 < Q2R f / Q2R t)%R) by (apply Rdiv_lt_0_compat; lra).
  assert (H1 : (Q2R f / Q2R t < 1)%R).
  { apply Rmult_lt_reg_r with (r := Q2R t); [lra|].
    unfold Rdiv. rewrite Rmult_assoc, Rinv_l by lra. lra. }
  pose proof (log2_neg _ H0 H1). lra.
Qed.

Lemma cents_diff_in_tune (f t : Q) :
  0 < t -> f == t -> cents_diff f t = 0%R.
Proof.
  intros Ht Hf. unfold cents_diff.
  pose proof (Q2R_pos t Ht) as Ht'. rewrite (Qeq_eqR _ _ Hf).
  replace (Q2R t / Q2R t)%R with 1%R by (field; lra).
  rewrite log2_1. lra.
Qed.

Lemma cents_diff_octave : cents_diff 220.0 110.0 = 120%R.
Proof.
  unfold cents_diff.
  replace (Q2R 220.0 / Q2R 110.0)%R with 2%R.
  - rewrite log2_2. lra.
  - unfold Q2R. cbn. lra.
Qed.

Lemma STRINGS_positive (n : string) (t : Q) : In (n, t) STRINGS -> 0 < t.
Proof.
  unfold STRINGS. cbn [In]. intros H.
  repeat (destruct H as [H|H]; [injection H as <- <-; reflexivity|]).
  contradiction.
Qed.

(** C8.  For a positive frequency [f], [freq_to_string] returns the table
    entry whose frequency is nearest to [f] in absolute difference, the
    first such entry in table order; the deviation shown for it is
    [(1200 * log2 (f / target)) / 10], positive when [f] is above the target
    and negative when below.  110 Hz resolves to A with deviation 0, and
    220 Hz against 110 Hz deviates by 120. *)
Theorem note_resolver_nearest (f : Q) :
  0 < f ->
  (exists i,
      nth_error STRINGS i = Some (freq_to_string f)
      /\ (forall j n t, nth_error STRINGS j = Some (n, t) ->
            Qabs (f - snd (freq_to_string f)) <= Qabs (f - t))
      /\ (forall j n t, (j < i)%nat -> nth_error STRINGS j = Some (n, t) ->
            Qabs (f - snd (freq_to_string f)) < Qabs (f - t)))
  /\ gauge_diff f (snd (freq_to_string f))
     = ((1200 * (ln (Q2R f / Q2R (snd (freq_to_string f))) / ln 2)) / 10)%R
  /\ (snd (freq_to_string f) < f ->
      (0 < gauge_diff f (snd (freq_to_string f)))%R)
  /\ (f < snd (freq_to_string f) ->
      (gauge_diff f (snd (freq_to_string f)) < 0)%R)
  /\ freq_to_string 110.0 = ("A", 110.00)
  /\ gauge_diff 110.0 110.00 = 0%R
  /\ cents_diff 220.0 110.0 = 120%R.
Proof.
  intros Hf.
  assert (Hg : forall t, gauge_diff f t = cents_diff f t).
  { intros t. unfold gauge_diff.
    destruct (Qltb 0 f) eqn:E; [reflexivity|].
    apply Qltb_ge in E. exfalso. exact (Qlt_not_le _ _ Hf E). }
  destruct (freq_to_string_nearest f) as (i & Hi & Hle & Hlt).
  assert (Ht : 0 < snd (freq_to_string f)).
  { apply nth_error_In in Hi. destruct (freq_to_string f) as [n t].
    exact (STRINGS_positive n t Hi). }
  split; [exists i; auto|].
  split; [rewrite Hg; reflexivity|].
  split; [intros H; rewrite Hg; apply cents_diff_sharp; assumption|].
  split; [intros H; rewrite Hg; apply cents_diff_flat; assumption|].
  split; [reflexivity|].
  split; [|exact cents_diff_octave].
  unfold gauge_diff.
  change (Qltb 0 110.0) with true. cbv iota.
  apply cents_diff_in_tune; reflexivity.
Qed.

Lemma note_resolver_nearest_witness :
  (exists i,
      nth_error STRINGS i = Some (freq_to_string 115)
      /\ (forall j n t, nth_error STRINGS j = Some (n, t) ->
            Qabs (115 - snd (freq_to_string 115)) <= Qabs (115 - t))
      /\ (forall j n t, (j < i)%nat -> nth_error STRINGS j = Some (n, t) ->
            Qabs (115 - snd (freq_to_string 115)) < Qabs (115 - t)))
  /\ gauge_diff 115 (snd (freq_to_string 115))
     = ((1200 * (ln (Q2R 115 / Q2R (snd (freq_to_string 115))) / ln 2)) / 10)%R
  /\ (snd (freq_to_string 115) < 115 ->
      (0 < gauge_diff 115 (snd (freq_to_string 115)))%R)
  /\ (115 < snd (freq_to_string 115) ->
      (gauge_diff 115 (snd (freq_to_string 115)) < 0)%R)
  /\ freq_to_string 110.0 = ("A", 110.00)
  /\ gauge_diff 110.0 110.00 = 0%R
  /\ cents_diff 220.0 110.0 = 120%R.
Proof. apply (note_resolver_nearest 115). reflexivity. Defined.

(** X4.  115 Hz and 105 Hz both resolve to A (105 is nearer to 110 than to
    82.41), sharp and flat respectively. *)
Lemma resolve_115_105 :
  freq_to_string 115 = ("A", 110.00) /\ (0 < gauge_diff 115 110.00)%R
  /\ freq_to_string 105 = ("A", 110.00) /\ (gauge_diff 105 110.00 < 0)%R.
Proof.
  split; [reflexivity|]. split.
  - change (gauge_diff 115 110.00) with (cents_diff 115 110.00).
    apply cents_diff_sharp; reflexivity.
  - split; [reflexivity|].
    change (gauge_diff 105 110.00) with (cents_diff 105 110.00).
    apply cents_diff_flat; reflexivity.
Qed.

(** ** The pitch estimator *)

(** [autocorr] holds one entry per non-negative lag, lag 0 first: entry [k]
    correlates the mean-removed block with itself shifted by [k]. *)
Lemma autocorr_lags (x : list Q) :
  autocorr x
  = map (fun k => dot (skipn k (centred x)) (centred x)) (seq 0 (length x)).
Proof.
  unfold autocorr, correlate_full. cbv zeta.
  set (c := centred x).
  assert (Hc : length c = length x) by (unfold c, centred; apply length_map).
  rewrite Hc.
  set (neg := map (fun p => dot c (skipn p c)) (rev (seq 1 (length x - 1)))).
  assert (Hneg : length neg = (length x - 1)%nat).
  { unfold neg. now rewrite length_map, length_rev, length_seq. }
  rewrite length_app, Hneg, length_map, length_seq.
  assert (Hhalf : ((length x - 1 + length x) / 2 = length x - 1)%nat).
  { destruct (length x) as [|n]; [reflexivity|].
    replace (S n - 1 + S n)%nat with (1 + n * 2)%nat by lia.
    rewrite Nat.div_add by lia. cbn. lia. }
  rewrite Hhalf, skipn_app, Hneg, Nat.sub_diag.
  rewrite skipn_all2 by lia. reflexivity.
Qed.

Lemma autocorr_length (x : list Q) : length (autocorr x) = length x.
Proof. now rewrite autocorr_lags, length_map, length_seq. Qed.

Lemma diff_length (l : list Q) : length (diff l) = (length l - 1)%nat.
Proof.
  induction l as [|a [|b l] IH]; try reflexivity.
  change (diff (a :: b :: l)) with ((b - a) :: diff (b :: l)).
  cbn [length] in *. lia.
Qed.

Lemma diff_nth (l : list Q) :
  forall i, (S i < length l)%nat ->
            nth i (diff l) 0 = nth (S i) l 0 - nth i l 0.
Proof.
  induction l as [|a [|b l] IH]; intros i Hi; cbn [length] in Hi; try lia.
  change (diff (a :: b :: l)) with ((b - a) :: diff (b :: l)).
  destruct i as [|i]; [reflexivity|].
  cbn [nth]. rewrite IH by (cbn [length]; lia). reflexivity.
Qed.


(** The head of [np.where(d > 0)[0]] is the first index whose entry is
    positive. *)
Lemma where_pos_from_head (d : list Q) :
  forall i start rest,
    where_pos_from i d = start :: rest ->
    exists k, start = (i + k)%nat /\ (k < length d)%nat
              /\ 0 < nth k d 0
              /\ forall j, (j < k)%nat -> ~ 0 < nth j d 0.
Proof.
  induction d as [|v d IH]; intros i start rest H; cbn [where_pos_from] in H.
  - discriminate H.
  - destruct (Qltb 0 v) eqn:E.
    + apply Qltb_lt in E. injection H as <- _.
      exists 0%nat. cbn [length nth]. repeat split; try lia. exact E.
    + apply Qltb_ge in E.
      destruct (IH _ _ _ H) as (k & -> & Hk & Hpos & Hbefore).
      exists (S k). cbn [length nth]. repeat split; try lia; [exact Hpos|].
      intros j Hj. destruct j as [|j].
      * intros Hv. exact (Qlt_not_le _ _ Hv E).
      * apply Hbefore. lia.
Qed.


Lemma argmax_from_spec (l : list Q) :
  forall bi b i,
    (argmax_from bi b i l = bi /\ Forall (fun v => v <= b) l)
    \/ (exists k,
           argmax_from bi b i l = (i + k)%nat /\ (k < length l)%nat
           /\ b < nth k l 0
           /\ Forall (fun v => v <= nth k l 0) l
           /\ forall j, (j < k)%nat -> nth j l 0 < nth k l 0).
Proof.
  induction l as [|v l IH]; intros bi b i; cbn [argmax_from].
  - left. split; [reflexivity|constructor].
  - destruct (Qltb b v) eqn:E.
    + apply Qltb_lt in E. right.
      destruct (IH i v (S i)) as [[Hr Hall]|(k & Hr & Hk & Hlt & Hall & Hfirst)].
      * exists 0%nat. cbn [length nth]. rewrite Hr.
        refine (conj _ (conj _ (conj E (conj _ _))));
          [ lia | lia | constructor; [apply Qle_refl|exact Hall]
          | intros j Hj; lia ].
      * exists (S k). cbn [length nth]. rewrite Hr.
        refine (conj _ (conj _ (conj _ (conj _ _))));
          [ lia | lia | eapply Qlt_trans; eassumption
          | constructor; [apply Qlt_le_weak; exact Hlt|exact Hall]
          | intros j Hj; destruct j as [|j]; [exact Hlt|apply Hfirst; lia] ].
    + apply Qltb_ge in E.
      destruct (IH bi b (S i)) as [[Hr Hall]|(k & Hr & Hk & Hlt & Hall & Hfirst)].
      * left. split; [exact Hr|]. constructor; assumption.
      * right. exists (S k). cbn [length nth]. rewrite Hr.
        assert (Hv : v < nth k l 0) by (eapply Qle_lt_trans; eassumption).
        refine (conj _ (conj _ (conj Hlt (conj _ _))));
          [ lia | lia
          | constructor; [apply Qlt_le_weak; exact Hv|exact Hall]
          | intros j Hj; destruct j as [|j]; [exact Hv|apply Hfirst; lia] ].
Qed.

(** [np.argmax] returns the first index that holds the maximum. *)
Lemma argmax_spec (l : list Q) (a : nat) :
  argmax l = Some a ->
  (a < length l)%nat
  /\ (forall j, (j < length l)%nat -> nth j l 0 <= nth a l 0)
  /\ (forall j, (j < a)%nat -> nth j l 0 < nth a l 0).
Proof.
  destruct l as [|v l]; [discriminate|]. cbn [argmax]. intros H.
  injection H as <-.
  destruct (argmax_from_spec l 0%nat v 1%nat)
    as [[Hr Hall]|(k & Hr & Hk & Hlt & Hall & Hfirst)]; rewrite Hr.
  - cbn [length nth]. refine (conj _ (conj _ _)); [lia| |intros j Hj; lia].
    intros j Hj. destruct j as [|j]; [apply Qle_refl|].
    rewrite Forall_nth in Hall. apply Hall. lia.
  - cbn [length]. change (1 + k)%nat with (S k). cbn [nth].
    refine (conj _ (conj _ _)); [lia| |].
    + intros j Hj. destruct j as [|j]; [apply Qlt_le_weak; exact Hlt|].
      rewrite Forall_nth in Hall. apply Hall. lia.
    + intros j Hj. destruct j as [|j]; [exact Hlt|apply Hfirst; lia].
Qed.



Lemma where_pos_first_rise (corr : list Q) (start : nat) (rest : list nat) :
  where_pos (diff corr) = start :: rest -> first_rise corr start.
Proof.
  intros H. apply where_pos_from_head in H.
  destruct H as (k & -> & Hk & Hpos & Hbefore). cbn [Nat.add].
  rewrite diff_length in Hk.
  refine (conj _ (conj _ _)); [lia| |].
  - rewrite <- diff_nth by lia. exact Hpos.
  - intros i Hi. rewrite <- diff_nth by lia. apply Hbefore. exact Hi.
Qed.

Lemma argmax_peak_after (corr : list Q) (start a : nat) :
  argmax (skipn start corr) = Some a ->
  peak_after corr start (a + start).
Proof.
  intros H. apply argmax_spec in H. destruct H as (Ha & Hmax & Hfirst).
  rewrite length_skipn in Ha, Hmax.
  refine (conj _ (conj _ _)); [lia| |].
  - intros j Hj. specialize (Hmax (j - start)%nat ltac:(lia)).
    rewrite !nth_skipn in Hmax.
    replace (start + (j - start))%nat with j in Hmax by lia.
    replace (start + a)%nat with (a + start)%nat in Hmax by lia.
    exact Hmax.
  - intros j Hj. specialize (Hfirst (j - start)%nat ltac:(lia)).
    rewrite !nth_skipn in Hfirst.
    replace (start + (j - start))%nat with j in Hfirst by lia.
    replace (start + a)%nat with (a + start)%nat in Hfirst by lia.
    exact Hfirst.
Qed.

(** The peak lag is never 0: where the autocorrelation first rises at lag
    0 its maximum lies further on, and otherwise the search starts past
    lag 0. *)
Lemma peak_after_positive (corr : list Q) (start peak : nat) :
  first_rise corr start -> peak_after corr start peak -> (0 < peak)%nat.
Proof.
  intros (Hlen & Hpos & _) (Hrange & Hmax & _).
  destruct peak as [|peak]; [|lia].
  assert (start = 0)%nat as -> by lia.
  specialize (Hmax 1%nat ltac:(lia)).
  apply Qlt_minus_iff in Hpos. exfalso. exact (Qlt_not_le _ _ Hpos Hmax).
Qed.


(** Lines 82-84 hand their array to lines 85-90. *)
Lemma detect_through_autocorr (x : list Q) (fs : Q) :
  x <> [] -> detect_frequency_autocorr x fs = detect_on (autocorr x) fs.
Proof.
  intros Hx. unfold detect_frequency_autocorr.
  destruct x as [|v x]; [congruence|reflexivity].
Qed.

Lemma Qdiv_nat_pos (fs : Q) (n : nat) :
  0 < fs -> (0 < n)%nat -> 0 < fs / inject_Z (Z.of_nat n).
Proof.
  intros Hfs Hn. apply Qlt_shift_div_l.
  - change 0 with (inject_Z 0). rewrite <- Zlt_Qlt. lia.
  - rewrite Qmult_0_l. exact Hfs.
Qed.





(** On that array the first rise is at lag 2 and the maximum from there
    on at lag 4. *)
Lemma detect_on_sample_array :
  first_rise [9; 4; 1; 3; 7; 2; 5] 2
  /\ peak_after [9; 4; 1; 3; 7; 2; 5] 2 4
  /\ detect_on [9; 4; 1; 3; 7; 2; 5] 44100 = Ok (44100 / 4).
Proof.
  split; [apply (where_pos_first_rise _ 2%nat [3; 5]%nat); reflexivity|].
  split; [|reflexivity].
  apply (argmax_peak_after _ 2%nat 2%nat). reflexivity.
Qed.

(** On that block the autocorrelation first rises at lag 2 and peaks at
    lag 4: the estimate is a quarter of the sample rate. *)
Lemma detect_sample_block :
  first_rise (autocorr [0; -2; -4; 0; 4; 0; -4; 0]) 2
  /\ peak_after (autocorr [0; -2; -4; 0; 4; 0; -4; 0]) 2 4
  /\ detect_frequency_autocorr [0; -2; -4; 0; 4; 0; -4; 0] 44100
     = Ok (44100 / 4).
Proof.
  split; [apply (where_pos_first_rise _ 2%nat [3; 6]%nat); reflexivity|].
  split; [|reflexivity].
  apply (argmax_peak_after _ 2%nat 2%nat). reflexivity.
Qed.

Lemma detect_no_rise (x : list Q) (fs : Q) :
  x <> [] ->
  (forall i, (S i < length (autocorr x))%nat ->
             ~ 0 < nth (S i) (autocorr x) 0 - nth i (autocorr x) 0) ->
  detect_frequency_autocorr x fs = Raise IndexError.
Proof.
  intros Hx Hflat. unfold detect_frequency_autocorr, detect_on.
  destruct x as [|v x]; [congruence|]. cbv zeta.
  destruct (where_pos (diff (autocorr (v :: x)))) as [|start rest] eqn:Hw;
    [reflexivity|].
  apply where_pos_first_rise in Hw. destruct Hw as (Hlen & Hpos & _).
  exfalso. exact (Hflat start Hlen Hpos).
Qed.

(** C4.  A block whose autocorrelation never rises makes the estimator
    raise IndexError at [np.where(d > 0)[0][0]]: it does not return none.
    The all-zero block is one such block, the ramp 1, 2, 3, 4 another. *)
Theorem detect_flat_block_raises :
  (forall x fs, x <> [] ->
     (forall i, (S i < length (autocorr x))%nat ->
                ~ 0 < nth (S i) (autocorr x) 0 - nth i (autocorr x) 0) ->
     detect_frequency_autocorr x fs = Raise IndexError)
  /\ Forall (fun c => c == 0) (autocorr [0; 0; 0; 0])
  /\ detect_frequency_autocorr [0; 0; 0; 0] 44100 = Raise IndexError
  /\ detect_frequency_autocorr [1; 2; 3; 4] 44100 = Raise IndexError.
Proof.
  split; [exact detect_no_rise|]. split; [|split; reflexivity].
  vm_compute. repeat constructor.
Qed.

(** The estimator never returns none: whenever it returns, the value is
    [fs / peak] for a peak lag of at least one sample, so the branch
    [if peak == 0: return 0] is never taken. *)
Lemma detect_returns_quotient (x : list Q) (fs r : Q) :
  detect_frequency_autocorr x fs = Ok r ->
  exists peak, (0 < peak)%nat /\ r = fs / inject_Z (Z.of_nat peak).
Proof.
  unfold detect_frequency_autocorr, detect_on. destruct x as [|v x]; [discriminate|].
  cbv zeta.
  destruct (where_pos (diff (autocorr (v :: x)))) as [|start rest] eqn:Hw;
    [discriminate|].
  destruct (argmax (skipn start (autocorr (v :: x)))) as [a|] eqn:Ha;
    [|discriminate].
  pose proof (peak_after_positive _ _ _
                (where_pos_first_rise _ _ _ Hw)
                (argmax_peak_after _ _ _ Ha)) as Hpos.
  destruct ((a + start) =? 0)%nat eqn:E.
  - apply Nat.eqb_eq in E. lia.
  - intros H. injection H as <-. exists (a + start)%nat. auto.
Qed.

Lemma detect_positive (x : list Q) (fs r : Q) :
  0 < fs -> detect_frequency_autocorr x fs = Ok r -> 0 < r.
Proof.
  intros Hfs H. apply detect_returns_quotient in H.
  destruct H as (peak & Hpeak & ->). apply Qdiv_nat_pos; assumption.
Qed.

(** X1.  At a positive sample rate the estimator never returns none (0):
    whatever it returns is a positive frequency [fs / peak] with
    [peak >= 1]. *)
Theorem detect_never_none (x : list Q) (fs r : Q) :
  0 < fs -> detect_frequency_autocorr x fs = Ok r ->
  0 < r /\ exists peak, (0 < peak)%nat /\ r = fs / inject_Z (Z.of_nat peak).
Proof.
  intros Hfs H. split; [exact (detect_positive x fs r Hfs H)|].
  exact (detect_returns_quotient x fs r H).
Qed.

Lemma detect_never_none_witness :
  0 < 44100 / 4
  /\ exists peak, (0 < peak)%nat
                  /\ 44100 / 4 = 44100 / inject_Z (Z.of_nat peak).
Proof.
  apply (detect_never_none [0; -2; -4; 0; 4; 0; -4; 0] 44100 (44100 / 4));
    reflexivity.
Defined.

(** ** One poll *)

Lemma last_item_app {A : Type} (l : list A) (a : A) :
  last_item (l ++ [a]) = Some a.
Proof. unfold last_item. now rewrite rev_app_distr. Qed.

Lemma feed_process (F : Sos) (s : LiveTuner) (block : list Q) :
  feed F s block = process F (set_q s []) block.
Proof.
  unfold feed, poll, audio_callback. cbn [q set_q].
  rewrite last_item_app. reflexivity.
Qed.

Lemma process_silent (F : Sos) (s : LiveTuner) (last : list Q) (peak : Q) :
  max_abs last = Some peak -> peak < 0.02 ->
  process F s last = (s, Returned None (running s)).
Proof.
  intros Hmax Hpeak. unfold process. rewrite Hmax.
  apply Qltb_lt in Hpeak. rewrite Hpeak. reflexivity.
Qed.

Lemma process_loud (F : Sos) (s : LiveTuner) (last : list Q) (peak : Q) :
  max_abs last = Some peak -> ~ peak < 0.02 ->
  process F s last
  = match filter_block F s (normalise last peak) with
    | Raise e => (s, Aborted e)
    | Ok (filtered, zf) => gauge (set_zi s zf) filtered
    end.
Proof.
  intros Hmax Hpeak. unfold process. rewrite Hmax.
  destruct (Qltb peak 0.02) eqn:E; [|reflexivity].
  apply Qltb_lt in E. contradiction.
Qed.

(** C7.  A block whose peak absolute sample is below 0.02 leaves the filter
    state, the frequency history and the stability candidate and count as
    they were, and displays no reading. *)
Theorem amplitude_gate_frame (F : Sos) (s : LiveTuner) (block : list Q)
        (peak : Q) :
  max_abs block = Some peak -> peak < 0.02 ->
  zi (fst (feed F s block)) = zi s
  /\ freq_history (fst (feed F s block)) = freq_history s
  /\ last_note (fst (feed F s block)) = last_note s
  /\ note_counter (fst (feed F s block)) = note_counter s
  /\ snd (feed F s block) = Returned None (running s).
Proof.
  intros Hmax Hpeak. rewrite feed_process.
  rewrite (process_silent F _ block peak Hmax Hpeak).
  repeat split.
Qed.

Lemma amplitude_gate_frame_witness :
  zi (fst (feed Df2t.differencer used quiet)) = zi used
  /\ freq_history (fst (feed Df2t.differencer used quiet)) = freq_history used
  /\ last_note (fst (feed Df2t.differencer used quiet)) = last_note used
  /\ note_counter (fst (feed Df2t.differencer used quiet)) = note_counter used
  /\ snd (feed Df2t.differencer used quiet) = Returned None (running used).
Proof.
  apply (amplitude_gate_frame Df2t.differencer used quiet 0.01);
    reflexivity.
Defined.

(** The state [used] that the quiet block leaves alone is not the initial
    one: two blocks have been through it. *)
Lemma used_state :
  zi used = [(2, 0)] /\ freq_history used = [44100 # 4; 44100 # 4]
  /\ last_note used = Some "High E" /\ note_counter used = 2%nat.
Proof. repeat split. Qed.

(** ** The filtering step *)

(** The state given for [Df2t.differencer] is its steady state for a unit
    step: under a constant input of 1 the output stays 0 and the state
    stays as it is. *)
Lemma differencer_steady :
  sosfilt_state Df2t.differencer [1; 1; 1] (sosfilt_zi Df2t.differencer)
  = Some ([0; 0; 0], sosfilt_zi Df2t.differencer).
Proof. reflexivity. Qed.


Lemma max_abs_nonempty (l : list Q) (peak : Q) :
  max_abs l = Some peak -> l <> [].
Proof. destruct l; [discriminate|congruence]. Qed.

Lemma last_item_nonempty {A : Type} (l : list A) :
  l <> [] -> exists a, last_item l = Some a.
Proof.
  intros H. unfold last_item. destruct (rev l) as [|a r] eqn:E; [|eauto].
  apply (f_equal (@rev A)) in E. rewrite rev_involutive in E. contradiction.
Qed.

Lemma sosfilt_nonempty (F : Sos) (arr : list Q) :
  arr <> [] -> sosfilt F arr <> [].
Proof.
  intros H Hnil. apply (f_equal (@length Q)) in Hnil.
  rewrite sosfilt_length in Hnil. destruct arr; [congruence|discriminate].
Qed.

Lemma normalise_nonempty (l : list Q) (peak : Q) :
  l <> [] -> normalise l peak <> [].
Proof. destruct l; [congruence|discriminate]. Qed.


(** On a block of two samples or more, a stateful call that raises is
    followed by the stateless one, and the steady-state initial condition
    scaled by the last filtered sample becomes the state. *)
Lemma filter_block_fallback (F : Sos) (s : LiveTuner) (v w : Q)
      (rest : list Q) :
  sosfilt_state F (v :: w :: rest) (filter_arg s (v :: w :: rest)) = None ->
  exists y,
    last_item (sosfilt F (v :: w :: rest)) = Some y
    /\ filter_block F s (v :: w :: rest)
       = Ok (sosfilt F (v :: w :: rest), scale (sosfilt_zi F) y).
Proof.
  intros Hfail.
  destruct (last_item_nonempty (sosfilt F (v :: w :: rest))) as (y & Hy).
  { apply sosfilt_nonempty. discriminate. }
  exists y. split; [exact Hy|].
  unfold filter_block. rewrite Hfail. cbv zeta. rewrite Hy. reflexivity.
Qed.


Lemma gauge_zi (s : LiveTuner) (filtered : list Q) :
  zi (fst (gauge s filtered)) = zi s.
Proof.
  unfold gauge, gauge_of. destruct (detect_frequency_autocorr filtered (fs s)) as [freq|e];
    [|reflexivity].
  destruct (smooth (freq_history s) freq) as [h freq_smooth].
  destruct (freq_to_string freq_smooth) as [name target].
  unfold confirm. cbn [last_note set_freq_history note_counter].
  destruct (last_note s) as [n|]; [destruct (String.eqb name n)|];
    cbn [set_note note_counter];
    match goal with |- context [if ?b then _ else _] => destruct b end;
    reflexivity.
Qed.

(** The state stored by a block whose stateful filtering succeeds is the
    one the filter returned, and the next call multiplies it by its own
    first sample. *)
Lemma process_stores_zf (F : Sos) (s : LiveTuner) (v w : Q) (rest : list Q)
      (peak : Q) (filtered : list Q) (zf : zi_t) :
  max_abs (v :: w :: rest) = Some peak -> ~ peak < 0.02 ->
  sosfilt_state F (normalise (v :: w :: rest) peak)
                (scale (zi s) (v / peak * 2)) = Some (filtered, zf) ->
  zi (fst (process F s (v :: w :: rest))) = zf
  /\ forall next, filter_arg (fst (process F s (v :: w :: rest))) next
                  = scale zf (hd 0 next).
Proof.
  intros Hmax Hpeak Hok.
  assert (Hzi : zi (fst (process F s (v :: w :: rest))) = zf).
  { rewrite (process_loud F s _ peak Hmax Hpeak).
    unfold filter_block, filter_arg. cbn [normalise map hd] in *.
    rewrite Hok. rewrite gauge_zi. reflexivity. }
  split; [exact Hzi|]. intros next. unfold filter_arg. now rewrite Hzi.
Qed.

(** A block that begins with a sample 0 hands the filter a state of
    zeros, whatever was stored. *)
Lemma filter_arg_wiped (s : LiveTuner) (rest : list Q) (peak : Q) :
  Forall (fun z => fst z == 0 /\ snd z == 0)
         (filter_arg s (normalise (0 :: rest) peak)).
Proof.
  unfold filter_arg, scale. cbn [normalise map hd].
  apply Forall_forall. intros z Hz. apply in_map_iff in Hz.
  destruct Hz as (z0 & <- & _). cbn [fst snd].
  assert (H0 : 0 / peak * 2 == 0) by (unfold Qdiv; ring).
  split; rewrite H0; ring.
Qed.

(** C2.  The state carried over from the previous call is not reused as it
    is: line 174 multiplies the stored state by the first sample of the
    normalised block on every call, the first of a session or not.  The
    state a successful call returns is stored, and the next call passes it
    multiplied by its own first sample; a next block that begins with a
    sample 0 passes a state of zeros.  With the one-section filter, the
    first block of a session leaves [(2, 0)] and the second call is handed
    [(4, 0)]. *)
Theorem carried_state_rescaled :
  (forall F s v w rest peak filtered zf,
      max_abs (v :: w :: rest) = Some peak -> ~ peak < 0.02 ->
      sosfilt_state F (normalise (v :: w :: rest) peak)
                    (scale (zi s) (v / peak * 2)) = Some (filtered, zf) ->
      zi (fst (process F s (v :: w :: rest))) = zf
      /\ forall next, filter_arg (fst (process F s (v :: w :: rest))) next
                      = scale zf (hd 0 next))
  /\ (forall s rest peak,
        Forall (fun z => fst z == 0 /\ snd z == 0)
               (filter_arg s (normalise (0 :: rest) peak)))
  /\ zi (fst (feed Df2t.differencer fresh tone)) = [(2, 0)]
  /\ filter_arg (fst (feed Df2t.differencer fresh tone)) (normalise tone 1)
     = [(4, 0)]
  /\ filter_arg (fst (feed Df2t.differencer fresh tone))
                (normalise [0; 1; 0; -1] 1)
     = [(0, 0)].
Proof.
  split; [exact process_stores_zf|].
  split; [exact filter_arg_wiped|].
  repeat split.
Qed.

(** ** Stopping and starting again *)

Lemma stop_start_keeps_note (F : Sos) (s : LiveTuner) (device_ok : bool) :
  last_note (start (stop F s) device_ok) = last_note s
  /\ note_counter (start (stop F s) device_ok) = note_counter s.
Proof.
  unfold start, stop.
  destruct (running s) eqn:E; cbn [negb]; cbn [running set_running set_q set_zi set_freq_history];
    [destruct device_ok|rewrite E; destruct device_ok]; split; reflexivity.
Qed.

Lemma stop_resets_filter_and_history (F : Sos) (s : LiveTuner) :
  running s = true ->
  zi (stop F s) = sosfilt_zi F /\ freq_history (stop F s) = []
  /\ q (stop F s) = [] /\ running (stop F s) = false.
Proof. intros H. unfold stop. rewrite H. repeat split. Qed.

(** After [stop] and [start] a running tuner is the freshly constructed
    and started one, except for the stability candidate and its count. *)
Lemma restart_state (F : Sos) (s : LiveTuner) :
  running s = true ->
  start (stop F s) true
  = set_note (start (init F (fs s)) true) (last_note s) (note_counter s).
Proof. intros H. unfold start, stop. rewrite H. reflexivity. Qed.

Lemma process_counted_twice (F : Sos) (s0 s1 : LiveTuner) (block : list Q)
      (n : string) (again : bool) :
  last_note s0 = None -> running s0 = true ->
  process F s0 block = (s1, Returned None again) ->
  last_note s1 = Some n ->
  exists shown,
    snd (process F (set_note s0 (Some n) 2) block)
    = Returned (Some shown) true
    /\ note shown = n.
Proof.
  intros Hln Hrun. unfold process.
  destruct (max_abs block) as [peak|]; [|discriminate].
  destruct (Qltb peak 0.02).
  { intros H Hs1. injection H as <- _. congruence. }
  change (filter_block F (set_note s0 (Some n) 2) (normalise block peak))
    with (filter_block F s0 (normalise block peak)).
  destruct (filter_block F s0 (normalise block peak)) as [[filtered zf]|e];
    [|discriminate].
  unfold gauge, gauge_of. cbn [fs freq_history set_zi set_note].
  destruct (detect_frequency_autocorr filtered (fs s0)) as [freq|e];
    [|discriminate].
  destruct (smooth (freq_history s0) freq) as [h freq_smooth].
  destruct (freq_to_string freq_smooth) as [name target].
  unfold confirm.
  cbn [last_note note_counter running set_freq_history set_zi set_note].
  rewrite Hln.
  cbn [last_note note_counter running set_freq_history set_zi set_note].
  change (note_confirm_threshold <=? 1)%nat with false. cbv iota.
  intros H Hs1. injection H as <- _. cbn [last_note set_note] in Hs1.
  injection Hs1 as ->. rewrite String.eqb_refl.
  cbn [last_note note_counter running set_freq_history set_zi set_note].
  change (note_confirm_threshold <=? 2 + 1)%nat with true. cbv iota.
  rewrite Hrun. cbn [snd]. eexists. split; reflexivity.
Qed.

(** Whenever a block makes the fresh tuner resolve the note that a tuner
    had counted twice before its restart, the restarted tuner displays that
    note on this very block and the fresh one does not. *)
Lemma restart_shows_early (F : Sos) (s s1 : LiveTuner) (block : list Q)
      (n : string) (again : bool) :
  running s = true -> last_note s = Some n -> note_counter s = 2%nat ->
  feed F (start (init F (fs s)) true) block = (s1, Returned None again) ->
  last_note s1 = Some n ->
  exists shown,
    snd (feed F (start (stop F s) true) block) = Returned (Some shown) true
    /\ note shown = n.
Proof.
  intros Hrun Hnote Hcount Hfresh Hs1.
  rewrite (restart_state F s Hrun), Hnote, Hcount.
  rewrite feed_process in *.
  apply (process_counted_twice
           F (set_q (start (init F (fs s)) true) []) s1 block n again);
    [reflexivity|reflexivity|exact Hfresh|exact Hs1].
Qed.

(** X5.  Stopping and starting a running tuner resets the filter state, the
    frequency history and the queue to what a freshly constructed and
    started tuner has; the stability candidate and its count keep their
    values. *)
Theorem restart_resets_all_but_gate (F : Sos) (s : LiveTuner) :
  running s = true ->
  start (stop F s) true
  = set_note (start (init F (fs s)) true) (last_note s) (note_counter s)
  /\ zi (start (stop F s) true) = sosfilt_zi F
  /\ freq_history (start (stop F s) true) = []
  /\ q (start (stop F s) true) = [].
Proof.
  intros H. rewrite (restart_state F s H). repeat split.
Qed.

Lemma restart_resets_all_but_gate_witness :
  start (stop Df2t.differencer used) true
  = set_note (start (init Df2t.differencer (fs used)) true)
             (last_note used) (note_counter used)
  /\ zi (start (stop Df2t.differencer used) true)
     = sosfilt_zi Df2t.differencer
  /\ freq_history (start (stop Df2t.differencer used) true) = []
  /\ q (start (stop Df2t.differencer used) true) = [].
Proof.
  apply (restart_resets_all_but_gate Df2t.differencer used). reflexivity.
Defined.

(** C1.  [stop] followed by [start] keeps the stability candidate and its
    count, so a restarted tuner does not behave as a fresh one: whenever a
    block makes the fresh tuner resolve the note the other had counted
    twice before its restart, the restarted tuner displays it at once.
    After two blocks resolved to High E, a stop and a start, one more such
    block is displayed (count 3), while a freshly constructed and started
    tuner displays nothing on that block (count 1). *)
Theorem restart_keeps_stability_state :
  (forall F s device_ok,
      last_note (start (stop F s) device_ok) = last_note s
      /\ note_counter (start (stop F s) device_ok) = note_counter s)
  /\ (forall F s s1 block n again,
        running s = true -> last_note s = Some n -> note_counter s = 2%nat ->
        feed F (start (init F (fs s)) true) block
        = (s1, Returned None again) ->
        last_note s1 = Some n ->
        exists shown,
          snd (feed F (start (stop F s) true) block)
          = Returned (Some shown) true
          /\ note shown = n)
  /\ last_note used = Some "High E" /\ note_counter used = 2%nat
  /\ snd (feed Df2t.differencer (start (stop Df2t.differencer used) true) tone)
     = Returned (Some {| note := "High E"; frequency_hz := 44100 # 4;
                         deviation := cents_diff (44100 # 4) 329.63 |}) true
  /\ snd (feed Df2t.differencer fresh tone) = Returned None true.
Proof.
  split; [exact stop_start_keeps_note|].
  split; [exact restart_shows_early|].
  repeat split.
Qed.

(** ** Blocks without a pitch *)

Lemma Qsum_nonneg (h : list Q) : Forall (fun f => 0 < f) h -> 0 <= Qsum h.
Proof.
  induction 1 as [|b h Hb Hh IH]; cbn [Qsum]; [apply Qle_refl|].
  apply Qlt_le_weak in Hb.
  apply (Qplus_le_compat 0 b 0 (Qsum h)); assumption.
Qed.

Lemma mean_positive (h : list Q) :
  h <> [] -> Forall (fun f => 0 < f) h -> 0 < mean h.
Proof.
  intros Hne Hall. unfold mean.
  assert (Hsum : 0 < Qsum h).
  { destruct h as [|a h]; [congruence|].
    inversion Hall as [|? ? Ha Hh]; subst. cbn [Qsum].
    apply (Qplus_lt_le_compat 0 a 0 (Qsum h)); [exact Ha|].
    apply Qsum_nonneg, Hh. }
  apply Qlt_shift_div_l.
  - change 0 with (inject_Z 0). rewrite <- Zlt_Qlt.
    destruct h; [congruence|cbn [length]; lia].
  - rewrite Qmult_0_l. exact Hsum.
Qed.

Lemma smooth_positive (history : list Q) (freq : Q) :
  0 < freq -> 0 < snd (smooth history freq).
Proof.
  intros Hf. unfold smooth. apply Qltb_lt in Hf. rewrite Hf. cbn [snd].
  set (h := filter (fun f => Qltb 0 f) (history ++ [freq])).
  assert (Hall : Forall (fun f => 0 < f) h).
  { apply Forall_forall. intros a Ha. apply filter_In in Ha.
    apply Qltb_lt, Ha. }
  assert (Hlast : In freq h).
  { apply filter_In. split; [apply in_or_app; right; left; reflexivity|exact Hf]. }
  destruct (5 <? length h)%nat eqn:E.
  - apply Nat.ltb_lt in E. destruct h as [|a h]; [cbn in E; lia|].
    cbn [tl]. apply mean_positive.
    + destruct h; [cbn in E; lia|congruence].
    + now inversion Hall.
  - apply mean_positive; [|exact Hall].
    intros Hnil. rewrite Hnil in Hlast. contradiction.
Qed.

(** X2.  Whatever [poll] displays carries a positive frequency: detection either
    raises or yields a positive value, and the mean of positive values is
    positive.  The branch [freq_smooth = 0] of [poll] is never taken. *)
Theorem displayed_frequency_positive (s s' : LiveTuner) (filtered : list Q)
        (shown : Reading) (again : bool) :
  0 < fs s ->
  gauge s filtered = (s', Returned (Some shown) again) ->
  0 < frequency_hz shown.
Proof.
  intros Hfs. unfold gauge, gauge_of.
  destruct (detect_frequency_autocorr filtered (fs s)) as [freq|e] eqn:Hd;
    [|discriminate].
  pose proof (detect_positive _ _ _ Hfs Hd) as Hfreq.
  pose proof (smooth_positive (freq_history s) freq Hfreq) as Hsm.
  destruct (smooth (freq_history s) freq) as [h freq_smooth]. cbn [snd] in Hsm.
  destruct (freq_to_string freq_smooth) as [name target].
  destruct (confirm (set_freq_history s h) name) as [s1 stable].
  destruct stable; intros H; [|discriminate].
  injection H as _ <- _. exact Hsm.
Qed.

Lemma displayed_frequency_positive_witness :
  0 < frequency_hz {| note := "High E"; frequency_hz := 2116800 # 192;
                      deviation := cents_diff (2116800 # 192) 329.63 |}.
Proof.
  apply (displayed_frequency_positive
           used (fst (gauge used [0; -2; -4; 0; 4; 0; -4; 0]))
           [0; -2; -4; 0; 4; 0; -4; 0] _ true).
  - reflexivity.
  - vm_compute. reflexivity.
Defined.








(** ** The range of the estimate *)

Lemma Qsquare_nonneg (a : Q) : 0 <= a * a.
Proof.
  destruct (Qlt_le_dec a 0) as [H|H].
  - setoid_replace (a * a) with ((- a) * (- a)) by ring.
    apply Qmult_le_0_compat; Lqa.lra.
  - apply Qmult_le_0_compat; assumption.
Qed.

(** The correlation of a block with itself shifted by one sample does not
    exceed its energy. *)
Lemma dot_shift_le (c : list Q) :
  2 * dot (tl c) c + hd 0 c * hd 0 c <= 2 * dot c c.
Proof.
  induction c as [|a [|b l] IH].
  - cbn. Lqa.lra.
  - cbn [tl hd dot]. pose proof (Qsquare_nonneg a). Lqa.lra.
  - cbn [tl hd] in *.
    change (dot (b :: l) (a :: b :: l)) with (b * a + dot l (b :: l)).
    change (dot (a :: b :: l) (a :: b :: l))
      with (a * a + dot (b :: l) (b :: l)).
    pose proof (Qsquare_nonneg (a - b)).
    pose proof (Qsquare_nonneg b).
    Lqa.nra.
Qed.

Lemma dot_self_nonneg (c : list Q) : 0 <= dot c c.
Proof.
  induction c as [|a c IH]; cbn [dot]; [Lqa.lra|].
  pose proof (Qsquare_nonneg a). Lqa.lra.
Qed.

(** The autocorrelation never rises from lag 0 to lag 1. *)
Lemma autocorr_lag1_le (x : list Q) :
  nth 1 (autocorr x) 0 <= nth 0 (autocorr x) 0.
Proof.
  rewrite autocorr_lags.
  destruct x as [|a [|b x]].
  - cbn. Lqa.lra.
  - cbn [length seq map nth]. apply dot_self_nonneg.
  - set (c := centred (a :: b :: x)).
    cbn [length seq map nth].
    change (skipn 0 c) with c.
    assert (Hc : skipn 1 c = tl c) by (destruct c; reflexivity).
    rewrite Hc.
    pose proof (dot_shift_le c) as H.
    pose proof (Qsquare_nonneg (hd 0 c)).
    Lqa.lra.
Qed.

Lemma first_rise_autocorr_pos (x : list Q) (start : nat) :
  first_rise (autocorr x) start -> (1 <= start)%nat.
Proof.
  intros (_ & Hpos & _). destruct start as [|start]; [|lia].
  pose proof (autocorr_lag1_le x) as H. exfalso. Lqa.lra.
Qed.

Lemma peak_after_gt_start (corr : list Q) (start peak : nat) :
  first_rise corr start -> peak_after corr start peak -> (start < peak)%nat.
Proof.
  intros (Hlen & Hpos & _) (Hrange & Hmax & _).
  destruct (Nat.eq_dec peak start) as [->|Hne]; [|lia].
  specialize (Hmax (S start) ltac:(lia)). exfalso. Lqa.lra.
Qed.

Lemma detect_peak_range (x : list Q) (fs r : Q) :
  detect_frequency_autocorr x fs = Ok r ->
  exists peak, (2 <= peak < length x)%nat
               /\ r = fs / inject_Z (Z.of_nat peak).
Proof.
  unfold detect_frequency_autocorr, detect_on. destruct x as [|v x]; [discriminate|].
  cbv zeta.
  destruct (where_pos (diff (autocorr (v :: x)))) as [|start rest] eqn:Hw;
    [discriminate|].
  destruct (argmax (skipn start (autocorr (v :: x)))) as [a|] eqn:Ha;
    [|discriminate].
  pose proof (where_pos_first_rise _ _ _ Hw) as Hrise.
  pose proof (argmax_peak_after _ _ _ Ha) as Hpeak.
  pose proof (first_rise_autocorr_pos _ _ Hrise) as Hstart.
  pose proof (peak_after_gt_start _ _ _ Hrise Hpeak) as Hgt.
  destruct Hpeak as (Hrange & _). rewrite autocorr_length in Hrange.
  destruct ((a + start) =? 0)%nat eqn:E.
  - apply Nat.eqb_eq in E. lia.
  - intros H. injection H as <-. exists (a + start)%nat. split; [lia|reflexivity].
Qed.

(** X6.  Whatever the estimator returns lies between the sample rate over
    the block length and half the sample rate: the peak lag is at least
    two samples, because the autocorrelation cannot rise from lag 0 to
    lag 1, and it is less than the block length. *)
Theorem detect_estimate_range (x : list Q) (fs r : Q) :
  0 < fs -> detect_frequency_autocorr x fs = Ok r ->
  fs / inject_Z (Z.of_nat (length x)) < r /\ r <= fs / 2.
Proof.
  intros Hfs H. apply detect_peak_range in H.
  destruct H as (peak & (Hlo & Hhi) & ->).
  assert (Hp : 0 < inject_Z (Z.of_nat peak)).
  { change 0 with (inject_Z 0). rewrite <- Zlt_Qlt. lia. }
  assert (Hn : inject_Z (Z.of_nat peak) < inject_Z (Z.of_nat (length x))).
  { rewrite <- Zlt_Qlt. lia. }
  assert (H2 : 2 <= inject_Z (Z.of_nat peak)).
  { change 2 with (inject_Z 2). rewrite <- Zle_Qle. lia. }
  set (p := inject_Z (Z.of_nat peak)) in *.
  set (n := inject_Z (Z.of_nat (length x))) in *.
  assert (Hr : fs / p * p == fs) by (field; Lqa.lra).
  assert (Hrpos : 0 < fs / p).
  { apply Qlt_shift_div_l; [exact Hp|]. Lqa.lra. }
  split.
  - apply Qlt_shift_div_r; [Lqa.lra|]. Lqa.nra.
  - apply Qle_shift_div_l; [Lqa.lra|]. Lqa.nra.
Qed.

Lemma detect_estimate_range_witness :
  44100 / inject_Z (Z.of_nat (length [0; -2; -4; 0; 4; 0; -4; 0])) < 44100 / 4
  /\ 44100 / 4 <= 44100 / 2.
Proof.
  apply (detect_estimate_range [0; -2; -4; 0; 4; 0; -4; 0] 44100 (44100 / 4));
    reflexivity.
Defined.

(** ** Where one note ends and the next begins *)

Lemma Qabs_cases (x : Q) :
  (0 <= x /\ Qabs x == x) \/ (x <= 0 /\ Qabs x == - x).
Proof.
  destruct (Qlt_le_dec x 0) as [H|H].
  - right. split; [Lqa.lra|]. apply Qabs_neg. Lqa.lra.
  - left. split; [exact H|]. apply Qabs_pos. exact H.
Qed.

Ltac split_abs :=
  repeat match goal with
         | H : context [Qabs ?x] |- _ =>
             lazymatch goal with
             | _ : Qabs x == _ |- _ => fail
             | _ => destruct (Qabs_cases x) as [[? ?]|[? ?]]
             end
         end.

(** The entry at place [k] is returned when every other place leads to a
    contradiction with the bounds on [f]. *)
Ltac resolve_at k :=
  let i := fresh "i" in
  let Hi := fresh "Hi" in
  let Hle := fresh "Hle" in
  let Hlt := fresh "Hlt" in
  match goal with
  | |- freq_to_string ?f = _ =>
      destruct (freq_to_string_nearest f) as (i & Hi & Hle & Hlt);
      specialize (Hle k); specialize (Hlt k);
      unfold STRINGS in Hi;
      do 6 (destruct i as [|i];
            [ cbn [nth_error] in Hi;
              apply (f_equal (fun o => match o with
                                       | Some p => p
                                       | None => ("", 0)
                                       end)) in Hi;
              rewrite <- Hi in *;
              first [ reflexivity
                    | exfalso;
                      specialize (Hle _ _ eq_refl);
                      try specialize (Hlt _ _ ltac:(lia) eq_refl);
                      cbn [snd] in *; split_abs; Lqa.lra ]
            | ]);
      destruct i; discriminate Hi
  end.

(** X9.  The table is cut at the midpoints between neighbouring strings:
    [freq_to_string] answers Low E up to 96.205 Hz (and for every
    non-positive frequency), A up to 128.415 Hz, D up to 171.415 Hz, G up
    to 221.47 Hz, B up to 288.285 Hz and High E above; a frequency on a
    midpoint goes to the lower string. *)
Theorem freq_to_string_intervals (f : Q) :
  (f <= 96.205 -> freq_to_string f = ("Low E", 82.41))
  /\ (96.205 < f -> f <= 128.415 -> freq_to_string f = ("A", 110.00))
  /\ (128.415 < f -> f <= 171.415 -> freq_to_string f = ("D", 146.83))
  /\ (171.415 < f -> f <= 221.47 -> freq_to_string f = ("G", 196.00))
  /\ (221.47 < f -> f <= 288.285 -> freq_to_string f = ("B", 246.94))
  /\ (288.285 < f -> freq_to_string f = ("High E", 329.63)).
Proof.
  split; [|split; [|split; [|split; [|split]]]]; intros.
  - resolve_at 0%nat.
  - resolve_at 1%nat.
  - resolve_at 2%nat.
  - resolve_at 3%nat.
  - resolve_at 4%nat.
  - resolve_at 5%nat.
Qed.

(** ** Normalisation *)

Lemma fold_max_abs (l : list Q) :
  forall m,
    let r := fold_left (fun m w => if Qltb m (Qabs w) then Qabs w else m) l m in
    m <= r /\ Forall (fun w => Qabs w <= r) l
    /\ (r = m \/ Exists (fun w => r = Qabs w) l).
Proof.
  induction l as [|w l IH]; intros m; cbn [fold_left].
  - split; [apply Qle_refl|]. split; [constructor|left; reflexivity].
  - cbv zeta in IH.
    destruct (Qltb m (Qabs w)) eqn:E.
    + apply Qltb_lt in E. destruct (IH (Qabs w)) as (H1 & H2 & H3).
      split; [Lqa.lra|]. split; [constructor; assumption|].
      right. destruct H3 as [H3|H3]; [left; exact H3|right; exact H3].
    + apply Qltb_ge in E. destruct (IH m) as (H1 & H2 & H3).
      split; [exact H1|]. split; [constructor; [Lqa.lra|assumption]|].
      destruct H3 as [H3|H3]; [left; exact H3|right; right; exact H3].
Qed.

(** [np.max(np.abs(arr))] bounds every sample and is the magnitude of one
    of them. *)
Lemma max_abs_spec (l : list Q) (peak : Q) :
  max_abs l = Some peak ->
  Forall (fun w => Qabs w <= peak) l /\ Exists (fun w => peak = Qabs w) l.
Proof.
  destruct l as [|v l]; [discriminate|]. cbn [max_abs]. intros H.
  injection H as <-.
  destruct (fold_max_abs l (Qabs v)) as (H1 & H2 & H3). cbv zeta in *.
  split.
  - constructor; assumption.
  - destruct H3 as [H3|H3]; [left; exact H3|right; exact H3].
Qed.

Lemma Qabs_normalised (v peak : Q) :
  0 < peak -> Qabs (v / peak * 2) == Qabs v / peak * 2.
Proof.
  intros Hp. unfold Qdiv. rewrite !Qabs_Qmult.
  rewrite (Qabs_pos (/ peak)), (Qabs_pos 2); [reflexivity|Lqa.lra|].
  apply Qlt_le_weak, Qinv_lt_0_compat, Hp.
Qed.

(** X10.  Whatever the level of a block that passed the amplitude gate,
    the block handed to the filter has all its samples within -2 and 2 and
    reaches 2 in magnitude: lines 170-171 remove the input level. *)
Theorem normalised_block_peak (l : list Q) (peak : Q) :
  max_abs l = Some peak -> 0 < peak ->
  Forall (fun v => Qabs v <= 2) (normalise l peak)
  /\ Exists (fun v => Qabs v == 2) (normalise l peak).
Proof.
  intros Hmax Hp. apply max_abs_spec in Hmax. destruct Hmax as (Hall & Hex).
  unfold normalise. split.
  - apply Forall_map. eapply Forall_impl; [|exact Hall].
    intros v Hv. cbv beta in *. rewrite (Qabs_normalised v peak Hp).
    assert (H : Qabs v / peak <= 1).
    { apply Qle_shift_div_r; [exact Hp|]. Lqa.lra. }
    Lqa.lra.
  - apply Exists_map. eapply Exists_impl; [|exact Hex].
    intros v Hv. cbv beta in *. rewrite (Qabs_normalised v peak Hp), <- Hv.
    field. Lqa.lra.
Qed.

Lemma normalised_block_peak_witness :
  Forall (fun v => Qabs v <= 2) (normalise [0.5; -0.25; 0.125] 0.5)
  /\ Exists (fun v => Qabs v == 2) (normalise [0.5; -0.25; 0.125] 0.5).
Proof.
  apply (normalised_block_peak [0.5; -0.25; 0.125] 0.5); reflexivity.
Defined.

(** ** What every state satisfies *)

Lemma smooth_well_formed (history : list Q) (freq : Q) :
  (length history <= 5)%nat -> Forall (fun f => 0 < f) history ->
  (length (fst (smooth history freq)) <= 5)%nat
  /\ Forall (fun f => 0 < f) (fst (smooth history freq)).
Proof.
  intros Hlen Hpos. unfold smooth.
  destruct (Qltb 0 freq); [|split; assumption]. cbn [fst].
  set (h := filter (fun f => Qltb 0 f) (history ++ [freq])).
  assert (Hh : (length h <= 6)%nat).
  { unfold h. eapply Nat.le_trans; [apply filter_length_le|].
    rewrite length_app. cbn [length]. lia. }
  assert (Hall : Forall (fun f => 0 < f) h).
  { apply Forall_forall. intros a Ha. apply filter_In in Ha.
    apply Qltb_lt, Ha. }
  destruct (5 <? length h)%nat eqn:E.
  - destruct h as [|a h]; [discriminate E|]. cbn [tl length] in *.
    split; [lia|]. now inversion Hall.
  - apply Nat.ltb_ge in E. split; assumption.
Qed.

Lemma freq_to_string_name (f : Q) :
  In (fst (freq_to_string f)) (map fst STRINGS).
Proof.
  destruct (freq_to_string_nearest f) as (i & Hi & _).
  apply nth_error_In in Hi. apply in_map. exact Hi.
Qed.

Lemma gauge_well_formed (s : LiveTuner) (filtered : list Q) :
  well_formed s -> well_formed (fst (gauge s filtered)).
Proof.
  intros (Hlen & Hpos & Hgate). unfold gauge, gauge_of.
  destruct (detect_frequency_autocorr filtered (fs s)) as [freq|e];
    [|repeat split; assumption].
  pose proof (smooth_well_formed (freq_history s) freq Hlen Hpos) as [Hl Hp].
  destruct (smooth (freq_history s) freq) as [h freq_smooth]. cbn [fst] in *.
  pose proof (freq_to_string_name freq_smooth) as Hname.
  destruct (freq_to_string freq_smooth) as [name target]. cbn [fst] in Hname.
  unfold confirm. cbn [last_note note_counter set_freq_history].
  assert (Hwf : well_formed
                  match last_note s with
                  | Some n =>
                      if (name =? n)%string
                      then set_note (set_freq_history s h) (last_note s)
                                    (note_counter s + 1)
                      else set_note (set_freq_history s h) (Some name) 1
                  | None => set_note (set_freq_history s h) (Some name) 1
                  end).
  { destruct (last_note s) as [n|] eqn:En.
    - destruct (String.eqb name n) eqn:E.
      + apply String.eqb_eq in E. subst n.
        split; [exact Hl|]. split; [exact Hp|].
        cbn [last_note note_counter set_note]. split; [lia|exact Hname].
      + split; [exact Hl|]. split; [exact Hp|].
        cbn [last_note note_counter set_note]. split; [lia|exact Hname].
    - split; [exact Hl|]. split; [exact Hp|].
      cbn [last_note note_counter set_note]. split; [lia|exact Hname]. }
  match goal with |- context [if ?b then _ else _] => destruct b end;
    exact Hwf.
Qed.

Lemma process_well_formed (F : Sos) (s : LiveTuner) (last : list Q) :
  well_formed s -> well_formed (fst (process F s last)).
Proof.
  intros H. unfold process.
  destruct (max_abs last) as [peak|]; [|exact H].
  destruct (Qltb peak 0.02); [exact H|].
  destruct (filter_block F s (normalise last peak)) as [[filtered zf]|e];
    [|exact H].
  apply gauge_well_formed. exact H.
Qed.

Lemma poll_well_formed (F : Sos) (s : LiveTuner) :
  well_formed s -> well_formed (fst (poll F s)).
Proof.
  intros H. unfold poll. destruct (last_item (q s)) as [last|].
  - apply process_well_formed. exact H.
  - exact H.
Qed.

Lemma stop_well_formed (F : Sos) (s : LiveTuner) :
  well_formed s -> well_formed (stop F s).
Proof.
  intros (Hlen & Hpos & Hgate). unfold stop.
  destruct (running s); cbn [negb]; [|repeat split; assumption].
  split; [cbn; lia|]. split; [constructor|exact Hgate].
Qed.

Lemma start_well_formed (s : LiveTuner) (device_ok : bool) :
  well_formed s -> well_formed (start s device_ok).
Proof.
  intros H. unfold start. destruct (running s); [exact H|].
  destruct device_ok; exact H.
Qed.

Lemma audio_callback_well_formed (s : LiveTuner) (indata : list Q)
      (status : bool) :
  well_formed s -> well_formed (audio_callback s indata status).
Proof. intros H. unfold audio_callback. destruct status; exact H. Qed.

Lemma run_well_formed (F : Sos) (blocks : list (list Q)) :
  forall s, well_formed s -> well_formed (fst (run F s blocks)).
Proof.
  induction blocks as [|b bs IH]; intros s H; [exact H|].
  cbn [run].
  pose proof (poll_well_formed F _ (audio_callback_well_formed s b false H))
    as H1.
  fold (feed F s b) in H1.
  destruct (feed F s b) as [s1 o]. cbn [fst] in H1.
  destruct o as [shown again|e]; [|exact H1].
  specialize (IH s1 H1). destruct (run F s1 bs) as [s2 os]. exact IH.
Qed.

(** X11.  Every method keeps the tuner's state well formed: the frequency
    history never holds more than five detections and only positive ones,
    and the stability count is 0 exactly as long as no note was resolved,
    the tracked note being one of the six strings.  A newly constructed
    tuner is well formed. *)
Theorem tuner_state_invariant (F : Sos) (s : LiveTuner) :
  well_formed s ->
  (forall fs, well_formed (init F fs))
  /\ (forall indata status, well_formed (audio_callback s indata status))
  /\ (forall device_ok, well_formed (start s device_ok))
  /\ well_formed (stop F s)
  /\ well_formed (fst (poll F s))
  /\ (forall blocks, well_formed (fst (run F s blocks))).
Proof.
  intros H.
  split; [intros fs; repeat split; cbn; try lia; constructor|].
  split; [intros; apply audio_callback_well_formed; exact H|].
  split; [intros; apply start_well_formed; exact H|].
  split; [apply stop_well_formed; exact H|].
  split; [apply poll_well_formed; exact H|].
  intros blocks. apply run_well_formed. exact H.
Qed.

Lemma used_well_formed : well_formed used.
Proof.
  destruct used_state as (_ & Hh & Hn & Hc).
  unfold well_formed. rewrite Hh, Hn, Hc.
  split; [cbn [length]; lia|]. split.
  - repeat constructor.
  - split; [lia|]. cbn [map fst STRINGS In]. do 5 right. left. reflexivity.
Qed.

Lemma tuner_state_invariant_witness :
  (forall fs, well_formed (init Df2t.differencer fs))
  /\ (forall indata status, well_formed (audio_callback used indata status))
  /\ (forall device_ok, well_formed (start used device_ok))
  /\ well_formed (stop Df2t.differencer used)
  /\ well_formed (fst (poll Df2t.differencer used))
  /\ (forall blocks, well_formed (fst (run Df2t.differencer used blocks))).
Proof.
  apply (tuner_state_invariant Df2t.differencer used).
  exact used_well_formed.
Defined.

(** ** The queue *)

Lemma process_q_running (F : Sos) (s : LiveTuner) (last : list Q) :
  q (fst (process F s last)) = q s
  /\ running (fst (process F s last)) = running s.
Proof.
  unfold process.
  destruct (max_abs last) as [peak|]; [|split; reflexivity].
  destruct (Qltb peak 0.02); [split; reflexivity|].
  destruct (filter_block F s (normalise last peak)) as [[filtered zf]|e];
    [|split; reflexivity].
  unfold gauge, gauge_of. cbn [fs freq_history set_zi].
  destruct (detect_frequency_autocorr filtered (fs s)) as [freq|e];
    [|split; reflexivity].
  destruct (smooth (freq_history s) freq) as [h freq_smooth].
  destruct (freq_to_string freq_smooth) as [name target].
  unfold confirm. cbn [last_note note_counter set_freq_history set_zi].
  destruct (last_note s) as [n|]; [destruct (String.eqb name n)|];
    cbn [set_note note_counter];
    match goal with |- context [if ?b then _ else _] => destruct b end;
    split; reflexivity.
Qed.

Lemma enqueue_poll (F : Sos) (b : list Q) (blocks : list (list Q)) :
  forall s, poll F (enqueue s (blocks ++ [b])) = process F (set_q s []) b.
Proof.
  unfold enqueue.
  induction blocks as [|blk blocks IH]; intros s.
  - cbn [app fold_left]. exact (feed_process F s b).
  - cbn [app fold_left]. rewrite IH. reflexivity.
Qed.

Lemma set_q_same (s : LiveTuner) : q s = [] -> set_q s [] = s.
Proof. destruct s. cbn. intros ->. reflexivity. Qed.

(** X12.  [poll] works on the newest block only and leaves the queue
    empty: whatever was queued before, after further blocks arrive one
    poll does what it would do had only the last of them arrived, and a
    second poll with no new audio changes nothing and displays nothing. *)
Theorem poll_keeps_newest (F : Sos) (s : LiveTuner) (blocks : list (list Q))
        (b : list Q) :
  poll F (enqueue s (blocks ++ [b])) = feed F s b
  /\ q (fst (poll F s)) = []
  /\ poll F (fst (poll F s)) = (fst (poll F s), Returned None (running s)).
Proof.
  split; [rewrite enqueue_poll, feed_process; reflexivity|].
  assert (Hq : q (fst (poll F s)) = []
               /\ running (fst (poll F s)) = running s).
  { unfold poll. destruct (last_item (q s)) as [last|].
    - exact (process_q_running F (set_q s []) last).
    - split; reflexivity. }
  destruct Hq as (Hq & Hrun). split; [exact Hq|].
  unfold poll at 1. rewrite Hq. cbn [last_item rev].
  rewrite (set_q_same _ Hq), Hrun. reflexivity.
Qed.

(** ** What it takes to display a note *)

Lemma gauge_display_counted (s s' : LiveTuner) (filtered : list Q)
      (shown : Reading) (again : bool) :
  gauge s filtered = (s', Returned (Some shown) again) ->
  last_note s = Some (note shown) /\ (2 <= note_counter s)%nat
  /\ last_note s' = Some (note shown)
  /\ note_counter s' = (note_counter s + 1)%nat.
Proof.
  unfold gauge, gauge_of.
  destruct (detect_frequency_autocorr filtered (fs s)) as [freq|e];
    [|discriminate].
  destruct (smooth (freq_history s) freq) as [h freq_smooth].
  destruct (freq_to_string freq_smooth) as [name target].
  unfold confirm. cbn [last_note note_counter set_freq_history].
  destruct (last_note s) as [n|] eqn:En.
  - destruct (String.eqb name n) eqn:E.
    + apply String.eqb_eq in E. subst n.
      cbn [note_counter set_note].
      destruct (note_confirm_threshold <=? note_counter s + 1)%nat eqn:Ec;
        [|discriminate].
      apply Nat.leb_le in Ec. unfold note_confirm_threshold in Ec.
      intros H. injection H as <- <- _. cbn [note last_note note_counter set_note].
      repeat split; try reflexivity; lia.
    + cbn [note_counter set_note].
      change (note_confirm_threshold <=? 1)%nat with false. discriminate.
  - cbn [note_counter set_note].
    change (note_confirm_threshold <=? 1)%nat with false. discriminate.
Qed.

(** X13.  A block is displayed only when the stability gate had already
    counted its note at least twice: the note shown is the one tracked
    before the block, its count was 2 or more and goes up by one.  A note
    is never displayed on its first or second block in a row. *)
Theorem display_needs_two_before (F : Sos) (s s' : LiveTuner)
        (block : list Q) (shown : Reading) (again : bool) :
  feed F s block = (s', Returned (Some shown) again) ->
  last_note s = Some (note shown) /\ (2 <= note_counter s)%nat
  /\ last_note s' = Some (note shown)
  /\ note_counter s' = (note_counter s + 1)%nat.
Proof.
  rewrite feed_process. unfold process.
  destruct (max_abs block) as [peak|]; [|discriminate].
  destruct (Qltb peak 0.02); [discriminate|].
  destruct (filter_block F (set_q s []) (normalise block peak))
    as [[filtered zf]|e]; [|discriminate].
  intros H. apply gauge_display_counted in H. exact H.
Qed.

Lemma display_needs_two_before_witness :
  last_note used = Some "High E" /\ (2 <= note_counter used)%nat
  /\ last_note (fst (feed Df2t.differencer used tone)) = Some "High E"
  /\ note_counter (fst (feed Df2t.differencer used tone))
     = (note_counter used + 1)%nat.
Proof.
  apply (display_needs_two_before
           Df2t.differencer used (fst (feed Df2t.differencer used tone)) tone
           {| note := "High E"; frequency_hz := 2116800 # 192;
              deviation := cents_diff (2116800 # 192) 329.63 |} true).
  vm_compute. reflexivity.
Defined.

(** ** The band edges *)

Lemma clip_bounds (a lo hi : Q) :
  lo <= hi -> lo <= clip a lo hi /\ clip a lo hi <= hi.
Proof.
  intros H. unfold clip, minimum, maximum.
  destruct (Qltb a lo) eqn:E1.
  - destruct (Qltb hi lo) eqn:E2.
    + apply Qltb_lt in E2. exfalso. Lqa.lra.
    + split; Lqa.lra.
  - apply Qltb_ge in E1. destruct (Qltb hi a) eqn:E2.
    + split; Lqa.lra.
    + apply Qltb_ge in E2. split; Lqa.lra.
Qed.

Lemma clip_increasing (a b : Q) :
  a < b -> clip a 0.0001 0.99 < clip b 0.0002 0.999.
Proof.
  intros H. unfold clip, minimum, maximum.
  destruct (Qltb a 0.0001) eqn:E1; [apply Qltb_lt in E1|apply Qltb_ge in E1];
    (destruct (Qltb b 0.0002) eqn:E2;
     [apply Qltb_lt in E2|apply Qltb_ge in E2]);
    repeat match goal with
           | |- context [Qltb ?x ?y] =>
               let E := fresh "E" in
               destruct (Qltb x y) eqn:E;
               [apply Qltb_lt in E|apply Qltb_ge in E]
           end; Lqa.lra.
Qed.

(** X14.  The cut-offs that [make_bandpass_sos] hands to the filter design
    are always inside the open unit interval, the low one between 0.0001
    and 0.99 and the high one between 0.0002 and 0.999; at a positive
    sample rate, cut-off frequencies given in increasing order stay in
    strictly increasing order after clipping.  Only a zero sample rate
    makes the computation fail. *)
Theorem band_edges_valid (low_hz high_hz fs : Q) :
  ~ fs == 0 ->
  exists low high,
    band_edges low_hz high_hz fs = Some (low, high)
    /\ 0.0001 <= low /\ low <= 0.99
    /\ 0.0002 <= high /\ high <= 0.999
    /\ (0 < fs -> low_hz < high_hz -> low < high).
Proof.
  intros Hfs. unfold band_edges. cbv zeta.
  destruct (Qeq_bool (0.5 * fs) 0) eqn:E.
  - apply Qeq_bool_eq in E. exfalso. apply Hfs. Lqa.lra.
  - eexists. eexists. split; [reflexivity|].
    destruct (clip_bounds (low_hz / (0.5 * fs)) 0.0001 0.99) as [H1 H2];
      [Lqa.lra|].
    destruct (clip_bounds (high_hz / (0.5 * fs)) 0.0002 0.999) as [H3 H4];
      [Lqa.lra|].
    repeat (split; [assumption|]).
    intros Hpos Hlt. apply clip_increasing.
    unfold Qdiv. apply Qmult_lt_r; [|exact Hlt].
    apply Qinv_lt_0_compat. Lqa.lra.
Qed.

Lemma band_edges_valid_witness :
  exists low high,
    band_edges 40 400 44100 = Some (low, high)
    /\ 0.0001 <= low /\ low <= 0.99
    /\ 0.0002 <= high /\ high <= 0.999
    /\ (0 < 44100 -> 40 < 400 -> low < high).
Proof.
  apply (band_edges_valid 40 400 44100). intros H. discriminate H.
Defined.

(** The default band, 40 Hz to 400 Hz at 44100 Hz, is not clipped. *)
Lemma band_edges_default :
  exists low high,
    band_edges 40 400 44100 = Some (low, high)
    /\ low == 40 / 22050 /\ high == 400 / 22050.
Proof. eexists. eexists. split; [reflexivity|]. split; reflexivity. Qed.

(** ** The needle of the gauge *)

Lemma needle_theta_cases (d : R) :
  (d <= -50 /\ needle_theta d = 180)%R
  \/ (-50 <= d <= 50 /\ needle_theta d = 90 - d / 50 * 90)%R
  \/ (50 <= d /\ needle_theta d = 0)%R.
Proof.
  unfold needle_theta, Rmin, Rmax. cbv zeta.
  destruct (Rle_dec d (-50)) as [H1|H1].
  - destruct (Rle_dec (-50) 50) as [H2|H2]; [|lra].
    left. split; lra.
  - destruct (Rle_dec d 50) as [H2|H2].
    + right. left. split; lra.
    + right. right. split; lra.
Qed.

(** X15.  The needle of the gauge stays on the upper half of the dial:
    its angle runs from 180 degrees (50 or more below the target) through
    90 degrees (exactly in tune) to 0 degrees (50 or more above); it lies
    in the green zone, 80 to 100 degrees, exactly when the deviation is
    within 50/9 either way; it points right of centre exactly for a sharp
    note and left of centre for a flat one. *)
Theorem needle_position (d : R) :
  (0 <= needle_theta d <= 180)%R
  /\ (needle_theta d = 90 <-> d = 0)%R
  /\ (80 <= needle_theta d <= 100 <-> - (50 / 9) <= d <= 50 / 9)%R
  /\ (50 <= d -> needle_theta d = 0)%R
  /\ (d <= -50 -> needle_theta d = 180)%R
  /\ (0 <= snd (needle_tip d))%R
  /\ (0 < d -> 0 < fst (needle_tip d))%R
  /\ (d < 0 -> fst (needle_tip d) < 0)%R.
Proof.
  pose proof PI_RGT_0 as Hpi.
  assert (Hrange : (0 <= needle_theta d <= 180)%R)
    by (destruct (needle_theta_cases d) as [[? ->]|[[? ->]|[? ->]]]; lra).
  assert (Hsharp : (0 < d -> needle_theta d < 90)%R)
    by (destruct (needle_theta_cases d) as [[? ->]|[[? ->]|[? ->]]]; lra).
  assert (Hflat : (d < 0 -> 90 < needle_theta d)%R)
    by (destruct (needle_theta_cases d) as [[? ->]|[[? ->]|[? ->]]]; lra).
  split; [exact Hrange|].
  split; [|split; [|split; [|split]]].
  - destruct (needle_theta_cases d) as [[? ->]|[[? ->]|[? ->]]];
      split; intros; lra.
  - destruct (needle_theta_cases d) as [[? ->]|[[? ->]|[? ->]]];
      split; intros; lra.
  - destruct (needle_theta_cases d) as [[? ->]|[[? ->]|[? ->]]]; intros; lra.
  - destruct (needle_theta_cases d) as [[? ->]|[[? ->]|[? ->]]]; intros; lra.
  - unfold needle_tip, deg2rad. cbv zeta. cbn [fst snd].
    set (t := needle_theta d) in *.
    split; [|split].
    + apply sin_ge_0; nra.
    + intros Hd. specialize (Hsharp Hd). apply cos_gt_0; nra.
    + intros Hd. specialize (Hflat Hd). apply cos_lt_0; nra.
Qed.

(** ** Deviations add up *)

Lemma ln_quotient (x y : R) :
  (0 < x)%R -> (0 < y)%R -> ln (x / y) = (ln x - ln y)%R.
Proof.
  intros Hx Hy. unfold Rdiv.
  rewrite ln_mult by (try assumption; apply Rinv_0_lt_compat; assumption).
  rewrite ln_Rinv by assumption. lra.
Qed.

Lemma cents_diff_ln (a b : Q) :
  0 < a -> 0 < b ->
  cents_diff a b = (120 * ((ln (Q2R a) - ln (Q2R b)) / ln 2))%R.
Proof.
  intros Ha Hb. unfold cents_diff, log2.
  rewrite ln_quotient by (apply Q2R_pos; assumption).
  pose proof ln_2_pos. field. lra.
Qed.

(** X16.  The deviation is a signed logarithmic distance: swapping the two
    frequencies flips its sign, deviations along a chain of frequencies
    add up, multiplying both frequencies by the same factor changes
    nothing, and an octave up is always 120. *)
Theorem cents_diff_algebra (a b c k : Q) :
  0 < a -> 0 < b -> 0 < c -> 0 < k ->
  cents_diff a b = (- cents_diff b a)%R
  /\ cents_diff a c = (cents_diff a b + cents_diff b c)%R
  /\ cents_diff (k * a) (k * b) = cents_diff a b
  /\ cents_diff (2 * a) a = 120%R.
Proof.
  intros Ha Hb Hc Hk.
  assert (Hka : 0 < k * a) by (apply Qmult_lt_0_compat; assumption).
  assert (Hkb : 0 < k * b) by (apply Qmult_lt_0_compat; assumption).
  assert (H2a : 0 < 2 * a) by Lqa.lra.
  rewrite !cents_diff_ln by assumption.
  rewrite !Q2R_mult.
  pose proof (Q2R_pos a Ha). pose proof (Q2R_pos b Hb).
  pose proof (Q2R_pos k Hk). pose proof ln_2_pos.
  rewrite !ln_mult by (try assumption; unfold Q2R; cbn; lra).
  replace (Q2R 2) with 2%R by (unfold Q2R; cbn; lra).
  repeat split; field; lra.
Qed.

Lemma cents_diff_algebra_witness :
  cents_diff 110 82.41 = (- cents_diff 82.41 110)%R
  /\ cents_diff 110 146.83 = (cents_diff 110 82.41 + cents_diff 82.41 146.83)%R
  /\ cents_diff (2 * 110) (2 * 82.41) = cents_diff 110 82.41
  /\ cents_diff (2 * 110) 110 = 120%R.
Proof.
  apply (cents_diff_algebra 110 82.41 146.83 2); reflexivity.
Defined.

(** ** The window of the moving average *)

Lemma Qsum_bounds (lo hi : Q) (l : list Q) :
  Forall (fun v => lo <= v /\ v <= hi) l ->
  inject_Z (Z.of_nat (length l)) * lo <= Qsum l
  /\ Qsum l <= inject_Z (Z.of_nat (length l)) * hi.
Proof.
  induction 1 as [|v l [Hlo Hhi] H IH].
  - cbn [length Qsum]. change (inject_Z (Z.of_nat 0)) with 0.
    split; Lqa.lra.
  - change (length (v :: l)) with (S (length l)).
    rewrite Nat2Z.inj_succ. unfold Z.succ. rewrite inject_Z_plus.
    cbn [Qsum]. destruct IH as [IH1 IH2].
    change (inject_Z 1) with 1.
    set (n := inject_Z (Z.of_nat (length l))) in *.
    split; Lqa.lra.
Qed.

Lemma mean_bounds (lo hi : Q) (l : list Q) :
  l <> [] -> Forall (fun v => lo <= v /\ v <= hi) l ->
  lo <= mean l /\ mean l <= hi.
Proof.
  intros Hne Hall. destruct (Qsum_bounds lo hi l Hall) as [H1 H2].
  assert (Hn : 0 < inject_Z (Z.of_nat (length l))).
  { change 0 with (inject_Z 0). rewrite <- Zlt_Qlt.
    destruct l; [congruence|cbn [length]; lia]. }
  unfold mean. split.
  - apply Qle_shift_div_l; [exact Hn|]. Lqa.lra.
  - apply Qle_shift_div_r; [exact Hn|]. Lqa.lra.
Qed.

Lemma filter_all_positive (l : list Q) :
  Forall (fun f => 0 < f) l -> filter (fun f => Qltb 0 f) l = l.
Proof.
  induction 1 as [|v l Hv H IH]; [reflexivity|].
  cbn [filter]. apply Qltb_lt in Hv. rewrite Hv, IH. reflexivity.
Qed.

(** X17.  With a detected pitch the history is a sliding window: the new
    value is appended, and once five values are held the oldest one is
    dropped; the smoothed frequency is the mean of the window and lies
    between any bounds that hold for the values in it. *)
Theorem smooth_sliding_window (history : list Q) (freq lo hi : Q) :
  0 < freq -> Forall (fun f => 0 < f) history -> (length history <= 5)%nat ->
  Forall (fun v => lo <= v /\ v <= hi) (history ++ [freq]) ->
  fst (smooth history freq)
  = (if (length history <? 5)%nat then history ++ [freq]
     else tl history ++ [freq])
  /\ snd (smooth history freq) = mean (fst (smooth history freq))
  /\ lo <= snd (smooth history freq) /\ snd (smooth history freq) <= hi.
Proof.
  intros Hf Hpos Hlen Hb.
  assert (Hall : Forall (fun f => 0 < f) (history ++ [freq])).
  { apply Forall_app. split; [exact Hpos|]. constructor; [exact Hf|constructor]. }
  unfold smooth. apply Qltb_lt in Hf. rewrite Hf.
  rewrite (filter_all_positive _ Hall). cbn [fst snd].
  rewrite length_app. cbn [length].
  assert (Hw : (if (5 <? length history + 1)%nat
                then tl (history ++ [freq]) else history ++ [freq])
               = (if (length history <? 5)%nat then history ++ [freq]
                  else tl history ++ [freq])).
  { destruct (length history <? 5)%nat eqn:E.
    - apply Nat.ltb_lt in E.
      destruct (5 <? length history + 1)%nat eqn:E'; [|reflexivity].
      apply Nat.ltb_lt in E'. lia.
    - apply Nat.ltb_ge in E.
      destruct (5 <? length history + 1)%nat eqn:E';
        [|apply Nat.ltb_ge in E'; lia].
      destruct history; [cbn in E; lia|reflexivity]. }
  rewrite Hw. split; [reflexivity|]. split; [reflexivity|].
  apply mean_bounds.
  - destruct (length history <? 5)%nat; [destruct history|destruct (tl history)];
      discriminate.
  - destruct (length history <? 5)%nat; [exact Hb|].
    destruct history as [|a h]; [exact Hb|].
    cbn [tl app] in *. now inversion Hb.
Qed.

Lemma smooth_sliding_window_witness :
  fst (smooth [100; 102; 98; 101; 99] 103)
  = (if (length [100; 102; 98; 101; 99] <? 5)%nat
     then [100; 102; 98; 101; 99] ++ [103]
     else tl [100; 102; 98; 101; 99] ++ [103])
  /\ snd (smooth [100; 102; 98; 101; 99] 103)
     = mean (fst (smooth [100; 102; 98; 101; 99] 103))
  /\ 98 <= snd (smooth [100; 102; 98; 101; 99] 103)
  /\ snd (smooth [100; 102; 98; 101; 99] 103) <= 103.
Proof.
  apply (smooth_sliding_window [100; 102; 98; 101; 99] 103 98 103).
  - reflexivity.
  - repeat constructor.
  - cbn [length]. lia.
  - repeat constructor; discriminate.
Defined.

(** ** The device list *)

Lemma lookup_app (dict : list (string * nat)) (k : string) (v : nat)
      (n : string) :
  Devices.lookup (dict ++ [(k, v)]) n
  = match Devices.lookup dict n with
    | Some i => Some i
    | None => if String.eqb k n then Some v else None
    end.
Proof.
  induction dict as [|[k' v'] dict IH]; cbn [app Devices.lookup].
  - reflexivity.
  - destruct (String.eqb k' n); [reflexivity|exact IH].
Qed.

Lemma lookup_none (dict : list (string * nat)) (n : string) :
  Devices.lookup dict n = None <-> ~ In n (map fst dict).
Proof.
  induction dict as [|[k v] dict IH]; cbn [Devices.lookup map fst In].
  - split; [intros _ []|reflexivity].
  - destruct (String.eqb k n) eqn:E.
    + apply String.eqb_eq in E. split; [discriminate|]. intros H.
      exfalso. apply H. left. exact E.
    + apply String.eqb_neq in E. rewrite IH. split.
      * intros H [H'|H']; [exact (E H')|exact (H H')].
      * intros H H'. apply H. right. exact H'.
Qed.

Lemma scan_spec (ds : list Devices.device) :
  forall dict names,
    map fst dict = names -> NoDup names ->
    map fst (fst (Devices.scan ds dict names)) = snd (Devices.scan ds dict names)
    /\ NoDup (snd (Devices.scan ds dict names))
    /\ (forall n i,
          Devices.lookup (fst (Devices.scan ds dict names)) n = Some i
          <-> Devices.lookup dict n = Some i
              \/ (Devices.lookup dict n = None
                  /\ Devices.skipped n = false
                  /\ exists d, Devices.first_named ds n d
                               /\ Devices.index d = i)).
Proof.
  induction ds as [|d ds IH]; intros dict names Hkeys Hnd; cbn [Devices.scan].
  - cbn [fst snd]. split; [exact Hkeys|]. split; [exact Hnd|].
    intros n i. split; [auto|].
    intros [H|(_ & _ & d & (pre & post & H & _) & _)]; [exact H|].
    destruct pre; discriminate H.
  - assert (Hskip : forall n i,
               (Devices.lookup dict n = Some i
                \/ (Devices.lookup dict n = None
                    /\ Devices.skipped n = false
                    /\ exists d0, Devices.first_named ds n d0
                                  /\ Devices.index d0 = i))
               -> Devices.name d <> n \/ Devices.lookup dict n <> None
               -> Devices.lookup dict n = Some i
                  \/ (Devices.lookup dict n = None
                      /\ Devices.skipped n = false
                      /\ exists d0, Devices.first_named (d :: ds) n d0
                                    /\ Devices.index d0 = i)).
    { intros n i [H|(Hn & Hs & d0 & (pre & post & Hds & Hname & Hpre) & Hi)] Hd;
        [left; exact H|].
      right. split; [exact Hn|]. split; [exact Hs|].
      exists d0. split; [|exact Hi].
      exists (d :: pre), post. split; [cbn; now rewrite Hds|].
      split; [exact Hname|].
      intros d' [<-|Hin]; [|exact (Hpre d' Hin)].
      destruct Hd as [Hd|Hd]; [exact Hd|contradiction]. }
    assert (Hback : forall n i,
               (Devices.lookup dict n = Some i
                \/ (Devices.lookup dict n = None
                    /\ Devices.skipped n = false
                    /\ exists d0, Devices.first_named (d :: ds) n d0
                                  /\ Devices.index d0 = i))
               -> Devices.name d <> n \/ Devices.lookup dict n <> None
               -> Devices.lookup dict n = Some i
                  \/ (Devices.lookup dict n = None
                      /\ Devices.skipped n = false
                      /\ exists d0, Devices.first_named ds n d0
                                    /\ Devices.index d0 = i)).
    { intros n i [H|(Hn & Hs & d0 & (pre & post & Hds & Hname & Hpre) & Hi)] Hd;
        [left; exact H|].
      right. split; [exact Hn|]. split; [exact Hs|].
      exists d0. split; [|exact Hi].
      destruct pre as [|d1 pre].
      - cbn [app] in Hds. injection Hds as <- _.
        destruct Hd as [Hd|Hd]; contradiction.
      - cbn [app] in Hds. injection Hds as <- Hds.
        exists pre, post. split; [exact Hds|]. split; [exact Hname|].
        intros d' Hin. apply Hpre. right. exact Hin. }
    destruct (Devices.skipped (Devices.name d)) eqn:Es.
    + destruct (IH dict names Hkeys Hnd) as (H1 & H2 & H3).
      split; [exact H1|]. split; [exact H2|].
      intros n i. rewrite H3.
      assert (Hd : Devices.lookup dict n = None -> Devices.skipped n = false ->
                   Devices.name d <> n).
      { intros _ Hs Hname. rewrite Hname in Es. congruence. }
      split; intros [H|(Hn & Hs & H)].
      * left; exact H.
      * apply Hskip; [right; auto|left; auto].
      * left; exact H.
      * apply Hback; [right; auto|left; auto].
    + destruct (Devices.lookup dict (Devices.name d)) as [j|] eqn:El.
      * destruct (IH dict names Hkeys Hnd) as (H1 & H2 & H3).
        split; [exact H1|]. split; [exact H2|].
        intros n i. rewrite H3.
        assert (Hd : Devices.lookup dict n = None -> Devices.name d <> n).
        { intros Hn Hname. rewrite Hname in El. congruence. }
        split; intros [H|(Hn & Hs & H)].
        -- left; exact H.
        -- apply Hskip; [right; auto|left; auto].
        -- left; exact H.
        -- apply Hback; [right; auto|left; auto].
      * destruct (IH (dict ++ [(Devices.name d, Devices.index d)])
                     (names ++ [Devices.name d])) as (H1 & H2 & H3).
        { rewrite map_app, Hkeys. reflexivity. }
        { apply NoDup_app; [exact Hnd|repeat constructor; intros []|].
          intros a Ha [<-|[]].
          apply lookup_none in El. rewrite Hkeys in El. exact (El Ha). }
        split; [exact H1|]. split; [exact H2|].
        intros n i. rewrite H3, lookup_app.
        destruct (Devices.lookup dict n) as [i0|] eqn:En.
        -- split; intros [H|(Hn & _)]; try discriminate Hn; left; exact H.
        -- destruct (String.eqb (Devices.name d) n) eqn:E.
           ++ apply String.eqb_eq in E. split.
              ** intros [H|(Hn & _)]; [|discriminate Hn].
                 injection H as <-. right. split; [reflexivity|].
                 split; [rewrite <- E; exact Es|].
                 exists d. split; [|reflexivity].
                 exists [], ds. split; [reflexivity|].
                 split; [exact E|]. intros d' [].
              ** intros [H|(_ & _ & d0 & (pre & post & Hds & Hname & Hpre) & Hi)];
                   [discriminate H|].
                 left. destruct pre as [|d1 pre].
                 --- cbn [app] in Hds. injection Hds as <- _.
                     rewrite Hi. reflexivity.
                 --- cbn [app] in Hds. injection Hds as <- _.
                     exfalso. apply (Hpre d); [left; reflexivity|exact E].
           ++ apply String.eqb_neq in E. split.
              ** intros [H|(_ & Hs & H)]; [discriminate H|].
                 pose proof (Hskip n i (or_intror (conj En (conj Hs H)))
                                   (or_introl E)) as X.
                 rewrite En in X. exact X.
              ** intros [H|(_ & Hs0 & H)]; [discriminate H|]. right.
                 destruct (Hback n i (or_intror (conj En (conj Hs0 H)))
                                 (or_introl E)) as [X|X];
                   [rewrite En in X; discriminate X|].
                 destruct X as (_ & Hs & X). split; [reflexivity|].
                 split; assumption.
Qed.

(** X18.  The device menu holds every usable input name once: the names
    are the keys of [device_dict] in order and without repetition, and a
    name is mapped to an index exactly when it is not passed over
    ("primary", "sound mapper") and some device with input channels bears
    it, the index being that of the first such device.  With no such
    device the selection is "No input", which is no key, and [start]
    leaves the tuner stopped rather than raising. *)
Theorem device_list_spec (all : list Devices.device) :
  map fst (fst (Devices.device_list all)) = snd (Devices.device_list all)
  /\ NoDup (snd (Devices.device_list all))
  /\ (forall n i,
        Devices.lookup (fst (Devices.device_list all)) n = Some i
        <-> Devices.skipped n = false
            /\ exists d, Devices.first_named (Devices.input_devices all) n d
                         /\ Devices.index d = i)
  /\ (forall n rest, snd (Devices.device_list all) = n :: rest ->
        exists i, Devices.lookup (fst (Devices.device_list all))
                                 (Devices.default_selection
                                    (snd (Devices.device_list all)))
                  = Some i)
  /\ (snd (Devices.device_list all) = [] ->
      forall s stream_ok,
        running s = false ->
        running (Devices.start_selected
                   s (fst (Devices.device_list all))
                   (Devices.default_selection (snd (Devices.device_list all)))
                   stream_ok) = false).
Proof.
  unfold Devices.device_list.
  destruct (scan_spec (Devices.input_devices all) [] [] eq_refl (NoDup_nil _))
    as (H1 & H2 & H3).
  split; [exact H1|]. split; [exact H2|]. split; [|split].
  - intros n i. rewrite H3. cbn [Devices.lookup]. split.
    + intros [H|(_ & Hs & H)]; [discriminate H|]. split; assumption.
    + intros (Hs & H). right. split; [reflexivity|]. split; assumption.
  - intros n rest Hn. rewrite Hn. cbn [Devices.default_selection].
    destruct (Devices.lookup
                (fst (Devices.scan (Devices.input_devices all) [] [])) n)
      as [i|] eqn:E; [eauto|].
    apply lookup_none in E. rewrite H1, Hn in E. exfalso. apply E. left.
    reflexivity.
  - intros Hnil s stream_ok Hrun. rewrite Hnil in *.
    unfold Devices.start_selected.
    destruct (fst (Devices.scan (Devices.input_devices all) [] []))
      as [|kv dict]; [|discriminate H1].
    cbn [Devices.lookup]. unfold start. rewrite Hrun. exact Hrun.
Qed.

(** Two devices called Mic, one playback device and the Windows sound
    mapper: the menu holds Mic once, with the index of the first. *)
Lemma device_list_example :
  Devices.device_list
    [ {| Devices.name := "Microsoft Sound Mapper - Input";
         Devices.index := 0; Devices.max_input_channels := 2 |};
      {| Devices.name := "Mic"; Devices.index := 1;
         Devices.max_input_channels := 1 |};
      {| Devices.name := "Speakers"; Devices.index := 2;
         Devices.max_input_channels := 0 |};
      {| Devices.name := "Mic"; Devices.index := 3;
         Devices.max_input_channels := 1 |} ]
  = ([("Mic", 1%nat)], ["Mic"]).
Proof. reflexivity. Qed.
